(** * mediawiki-utils-go: the deploy subcommand of package [internal]

    A shallow embedding of the deploy subcommand: flag resolution,
    [validateConfig], the step executors and [executeDeploy].  External
    processes are a collaborator [run] acting on an abstract [World]; the
    package-level variables [HOSTNAME], [VALIDEXTENSIONS] and [VALIDSKINS]
    are an explicit record threaded through the calls that read them. *)

From Stdlib Require Import String Ascii List Bool ZArith.
Import ListNotations.
Local Open Scope string_scope.
Local Open Scope list_scope.

Infix "+++" := String.append (at level 60, right associativity).

(** ** Go values *)

(** Go [error] values produced by this package: the error of a finished
    process, [fmt.Errorf] of a plain message, and [fmt.Errorf] wrapping
    another error with [%w]. *)
Inductive error : Type :=
| ProcessError (msg : string)
| Errorf (msg : string)
| ErrorfW (msg : string) (err : error).

(** [err.Error()]. *)
Fixpoint Error (e : error) : string :=
  match e with
  | ProcessError msg => msg
  | Errorf msg => msg
  | ErrorfW msg err => msg +++ Error err
  end.

(** [strings.Split(s, sep)] for a one-character separator: the pieces
    between separators, one more than there are separators. *)
Fixpoint Split (s : string) (sep : ascii) : list string :=
  match s with
  | EmptyString => [EmptyString]
  | String c s' =>
      let r := Split s' sep in
      if Ascii.eqb c sep then EmptyString :: r
      else match r with
           | [] => [String c EmptyString]
           | h :: t => String c h :: t
           end
  end.

Definition comma : ascii := ","%char.
Definition space : ascii := " "%char.
Definition dot : ascii := "."%char.

(** helper to check if a []string array contains a specific item *)
Fixpoint contains (slice : list string) (item : string) : bool :=
  match slice with
  | [] => false
  | s :: rest => if String.eqb s item then true else contains rest item
  end.

(** ** Constants and package-level state *)

Definition DEPLOYUSER := "mediawikiuser".
Definition EXTENSIONPATH := "/prod/mediawiki-staging/extensions/".
Definition SKINPATH := "/prod/mediawiki-staging/skins/".
Definition STAGINGPATH := "/prod/mediawiki-staging".
Definition PRODUCTIONPATH := "/prod/mediawiki".
Definition ALLSERVERS := ["mw1"; "mw2"; "mwtask1"].

(** The package-level variables.  A Go [var x []string] starts out nil,
    which ranges like the empty slice. *)
Record Globals : Type := mkGlobals {
  HOSTNAME : string;
  VALIDEXTENSIONS : list string;
  VALIDSKINS : list string
}.

Definition globals0 : Globals :=
  {| HOSTNAME := ""; VALIDEXTENSIONS := []; VALIDSKINS := [] |}.

(** all possible deploy options *)
Record DeployConfig : Type := mkConfig {
  UpgradeExtensions : list string;
  UpgradeSkins : list string;
  UpgradeVendor : bool;
  UpgradeWorld : bool;
  L10n : bool;
  Lang : string;
  Servers : list string;
  IgnoreTime : bool;
  Force : bool
}.

(** The values of the flag set after [deployCmd.Parse(args)]. *)
Record Flags : Type := mkFlags {
  upgradeExtensions : string;
  upgradeSkins : string;
  upgradeVendor : bool;
  upgradeWorld : bool;
  l10n : bool;
  lang : string;
  servers : string;
  ignoreTime : bool;
  force : bool
}.

Definition flags0 : Flags :=
  {| upgradeExtensions := ""; upgradeSkins := ""; upgradeVendor := false;
     upgradeWorld := false; l10n := false; lang := ""; servers := "";
     ignoreTime := false; force := false |}.

(** Parse the flags passed to the script so we know what we're doing *)
Definition parseFlags (f : Flags) : DeployConfig :=
  {| UpgradeExtensions :=
       if String.eqb f.(upgradeExtensions) "" then []
       else Split f.(upgradeExtensions) comma;
     UpgradeSkins :=
       if String.eqb f.(upgradeSkins) "" then []
       else Split f.(upgradeSkins) comma;
     UpgradeVendor := f.(upgradeVendor);
     UpgradeWorld := f.(upgradeWorld);
     L10n := f.(l10n);
     Lang := f.(lang);
     Servers :=
       if String.eqb f.(servers) "" then []
       else if String.eqb f.(servers) "all" then ALLSERVERS
       else Split f.(servers) comma;
     IgnoreTime := f.(ignoreTime);
     Force := f.(force) |}.

(** ** Validation *)

(** One validation loop: the first name of the range that the valid list
    does not contain, the point where the loop returns. *)
Fixpoint first_invalid (valid names : list string) : option string :=
  match names with
  | [] => None
  | x :: rest =>
      if negb (contains valid x) then Some x else first_invalid valid rest
  end.

Definition errNoServers : error := Errorf "at least one server required".
Definition errLangNeedsL10n : error := Errorf "--lang requires --l10n flag".
Definition errInvalidExtension (ext : string) : error :=
  Errorf ("invalid extension: " +++ ext).
Definition errInvalidSkin (skin : string) : error :=
  Errorf ("invalid skin: " +++ skin).

(** validate that what the user asked for is actually valid *)
Definition validateConfig (g : Globals) (config : DeployConfig) : option error :=
  match first_invalid g.(VALIDEXTENSIONS) config.(UpgradeExtensions) with
  | Some ext => Some (errInvalidExtension ext)
  | None =>
      match first_invalid g.(VALIDSKINS) config.(UpgradeSkins) with
      | Some skin => Some (errInvalidSkin skin)
      | None =>
          if Nat.eqb (length config.(Servers)) 0 then Some errNoServers
          else if negb (String.eqb config.(Lang) "") && negb config.(L10n)
               then Some errLangNeedsL10n
               else None
      end
  end.

(** ** External commands, the trace, and the state monad *)

(** An [exec.Cmd] as this package builds it: program, arguments, working
    directory ([""] is the caller's) and whether stdout and stderr are
    forwarded to the process's own. *)
Record Cmd : Type := mkCmd {
  Path : string;
  Args : list string;
  Dir : string;
  Stdio : bool
}.

(** The six kinds of step the orchestrator drives. *)
Inductive Step : Type :=
| DependencyUpdate
| ExtensionUpdate (ext : string)
| SkinUpdate (skin : string)
| LocalSync
| LocalizationRebuild (lang : string)
| RemoteSync (server : string).


(** An entry of a directory listing: name and [IsDir()]. *)
Record DirEntry : Type := mkEntry { Name : string; IsDir : bool }.

(** How a run of the subcommand ends: [log.Fatal] / [os.Exit(1)] with the
    error that caused it, or the final "Deploy completed successfully". *)
Inductive Outcome : Type :=
| Fatal (err : error)
| Completed.

(** The state threaded through a run: the outside world, every external
    command run so far with its result, and every step the orchestrator
    has finished with its result (both oldest first). *)
Record State (World : Type) : Type := mkState {
  world : World;
  cmds : list (Cmd * option error);
  steps : list (Step * option error)
}.
Arguments mkState {World}.
Arguments world {World}.
Arguments cmds {World}.
Arguments steps {World}.

Definition init {World : Type} (w : World) : State World :=
  {| world := w; cmds := []; steps := [] |}.

(** The steps of a trace, without their results. *)
Definition attempted {World : Type} (st : State World) : list Step :=
  map fst st.(steps).

(** The commands of a trace, without their results. *)
Definition issued {World : Type} (st : State World) : list Cmd :=
  map fst st.(cmds).

Definition M (World A : Type) : Type := State World -> A * State World.

Definition ret {World A : Type} (a : A) : M World A := fun st => (a, st).

Definition bind {World A B : Type} (m : M World A) (k : A -> M World B)
  : M World B :=
  fun st => let (a, st') := m st in k a st'.

Declare Scope deploy_scope.
Delimit Scope deploy_scope with deploy.
Notation "x <- m ;; k" := (bind m (fun x => k))
  (at level 100, m at next level, right associativity) : deploy_scope.
Local Open Scope deploy_scope.

(** [for _, x := range l { if err := body(x); err != nil { return err } }] *)
Fixpoint range_err {World : Type} (l : list string)
  (body : string -> M World (option error)) : M World (option error) :=
  match l with
  | [] => ret None
  | x :: rest =>
      err <- body x ;;
      match err with
      | Some e => ret (Some e)
      | None => range_err rest body
      end
  end.

(** A range loop of [executeDeploy]: the body updates [exitCodes] or makes
    the function return ([inl err]). *)
Fixpoint range {World : Type} (l : list string)
  (body : string -> list Z -> M World (error + list Z))
  (exitCodes : list Z) : M World (error + list Z) :=
  match l with
  | [] => ret (inr exitCodes)
  | x :: rest =>
      r <- body x exitCodes ;;
      match r with
      | inl err => ret (inl err)
      | inr exitCodes => range rest body exitCodes
      end
  end.

(** The closing loop of [executeDeploy] over [exitCodes]. *)
Fixpoint scanExitCodes (exitCodes : list Z) : option error :=
  match exitCodes with
  | [] => None
  | code :: rest =>
      if negb (Z.eqb code 0) then Some (Errorf "deployment completed with errors")
      else scanExitCodes rest
  end.

(** The arguments [runRsync] hands to rsync. *)
Definition rsyncArgs (params src dst : string) : list string :=
  Split params space ++ ["-r"; "--delete"; "--exclude=.*"; src; dst].

(** The command [runCommand] builds. *)
Definition command (name : string) (args : list string) : Cmd :=
  {| Path := name; Args := args; Dir := ""; Stdio := true |}.

(** ** rsync's reading of an argument list

    For the options this package passes: [-e] takes the argument after it
    as the remote-shell command; any other argument that starts with a
    dash is an option without a separate value; what remains are the
    transfer endpoints, sources first and the destination last. *)
Definition isOption (a : string) : bool :=
  match a with
  | String c _ => Ascii.eqb c "-"%char
  | EmptyString => false
  end.

Fixpoint rsyncParse (afterE : bool) (args : list string) : list string :=
  match args with
  | [] => []
  | a :: rest =>
      if afterE then rsyncParse false rest
      else if String.eqb a "-e" then rsyncParse true rest
      else if isOption a then rsyncParse false rest
      else a :: rsyncParse false rest
  end.

Definition rsyncEndpoints (args : list string) : list string :=
  rsyncParse false args.

(** The remote-shell command rsync is given: the argument after [-e]. *)
Fixpoint rsyncRemoteShell (args : list string) : option string :=
  match args with
  | [] => None
  | a :: rest =>
      if String.eqb a "-e" then
        match rest with
        | [] => None
        | v :: _ => Some v
        end
      else rsyncRemoteShell rest
  end.

(** ** Concrete collaborators, for running the model on examples *)

Definition exitStatus1 : error := ProcessError "exit status 1".

(** A world in which the commands selected by [bad] exit non-zero and all
    others succeed. *)
Definition failing (bad : Cmd -> bool) (c : Cmd) (w : unit)
  : unit * option error :=
  (w, if bad c then Some exitStatus1 else None).

(** A world in which every command succeeds. *)
Definition quiet : Cmd -> unit -> unit * option error :=
  failing (fun _ => false).

(** Commands whose last argument is [a] (for rsync: the destination). *)
Definition lastArgIs (a : string) (c : Cmd) : bool :=
  String.eqb (last c.(Args) "") a.

(** Commands of program [p]. *)
Definition programIs (p : string) (c : Cmd) : bool :=
  String.eqb c.(Path) p.

(** A staging tree with one extension and one skin under version control,
    and a plain file next to each. *)
Definition demoReadDir (path : string) : error + list DirEntry :=
  if String.eqb path EXTENSIONPATH then
    inr [ {| Name := "Foo"; IsDir := true |};
          {| Name := "README"; IsDir := false |} ]
  else if String.eqb path SKINPATH then
    inr [ {| Name := "Vector"; IsDir := true |};
          {| Name := "README"; IsDir := false |} ]
  else inl (ProcessError "no such file or directory").

Definition demoStat (path : string) : option error := None.

Definition demoHostname : error + string := inr "mw1.example.org".

(** The package variables of a run on host mw1 over that tree. *)
Definition demoGlobals : Globals :=
  {| HOSTNAME := "mw1"; VALIDEXTENSIONS := ["Foo"]; VALIDSKINS := ["Vector"] |}.

(** A request naming extension Foo twice, for all three servers. *)
Definition demoConfig (force : bool) : DeployConfig :=
  {| UpgradeExtensions := ["Foo"; "Foo"]; UpgradeSkins := ["Vector"];
     UpgradeVendor := true; UpgradeWorld := false; L10n := true; Lang := "en";
     Servers := ["mw1"; "mw2"; "mwtask1"]; IgnoreTime := false;
     Force := force |}.

(** A fail-fast request for the two remote servers only. *)
Definition remoteOnlyConfig : DeployConfig :=
  {| UpgradeExtensions := []; UpgradeSkins := [];
     UpgradeVendor := false; UpgradeWorld := false; L10n := false; Lang := "";
     Servers := ["mw2"; "mwtask1"]; IgnoreTime := false; Force := false |}.

(** The scenario of the specification: extension Foo on the local host. *)
Definition fooConfig : DeployConfig :=
  {| UpgradeExtensions := ["Foo"]; UpgradeSkins := [];
     UpgradeVendor := false; UpgradeWorld := false; L10n := false; Lang := "";
     Servers := ["mw1"]; IgnoreTime := false; Force := false |}.



(** [--upgrade-extensions Foo --servers mw1] *)
Definition fooFlags : Flags :=
  {| upgradeExtensions := "Foo"; upgradeSkins := ""; upgradeVendor := false;
     upgradeWorld := false; l10n := false; lang := ""; servers := "mw1";
     ignoreTime := false; force := false |}.

(** [--servers all] *)
Definition allServersFlags : Flags :=
  {| upgradeExtensions := ""; upgradeSkins := ""; upgradeVendor := false;
     upgradeWorld := false; l10n := false; lang := ""; servers := "all";
     ignoreTime := false; force := false |}.

(** [--upgrade-world --servers mw1] *)
Definition worldFlags : Flags :=
  {| upgradeExtensions := ""; upgradeSkins := ""; upgradeVendor := false;
     upgradeWorld := true; l10n := false; lang := ""; servers := "mw1";
     ignoreTime := false; force := false |}.

(** [--upgrade-world] with no [--servers] *)
Definition worldNoServersFlags : Flags :=
  {| upgradeExtensions := ""; upgradeSkins := ""; upgradeVendor := false;
     upgradeWorld := true; l10n := false; lang := ""; servers := "";
     ignoreTime := false; force := false |}.

(** [--upgrade-extensions Bogus] with no [--servers] *)
Definition bogusFlags : Flags :=
  {| upgradeExtensions := "Bogus"; upgradeSkins := ""; upgradeVendor := false;
     upgradeWorld := false; l10n := false; lang := ""; servers := "";
     ignoreTime := false; force := false |}.

(** The destination of the remote sync to mw2. *)
Definition mw2Destination : string := "mediawikiuser@mw2:/prod/mediawiki/".

Section Deploy.

Variable World : Type.

(** The [Run] method of [exec.Cmd]: runs the command in the world and
    returns its error, [None] for nil. *)
Variable run : Cmd -> World -> World * option error.

(** [os.Hostname], [os.ReadDir] and [os.Stat] ([None] for a nil error). *)
Variable os_Hostname : error + string.
Variable os_ReadDir : string -> error + list DirEntry.
Variable os_Stat : string -> option error.

(** [cmd.Run()], recorded in the command trace. *)
Definition Run (c : Cmd) : M World (option error) :=
  fun st =>
    let (w, err) := run c st.(world) in
    (err, {| world := w; cmds := st.(cmds) ++ [(c, err)]; steps := st.(steps) |}).

(** Records a finished step and its result in the step trace. *)
Definition traced (s : Step) (m : M World (option error)) : M World (option error) :=
  fun st =>
    let (err, st') := m st in
    (err, {| world := st'.(world); cmds := st'.(cmds);
             steps := st'.(steps) ++ [(s, err)] |}).

(** helper to run a command *)
Definition runCommand (name : string) (args : list string) : M World (option error) :=
  Run (command name args).

(** helper to run rsync *)
Definition runRsync (params src dst : string) : M World (option error) :=
  runCommand "rsync" (rsyncArgs params src dst).

(** [if err := m; err != nil { return wrap(err) }], then [k]. *)
Definition orReturn (m : M World (option error)) (wrap : error -> error)
  (k : M World (option error)) : M World (option error) :=
  err <- m ;;
  match err with
  | Some err => ret (Some (wrap err))
  | None => k
  end.

(** update vendor *)
Definition updateVendor : M World (option error) :=
  let vendorPath := STAGINGPATH +++ "/vendor" in
  orReturn (runCommand "git" ["-C"; vendorPath; "reset"; "--hard"])
           (ErrorfW "failed to reset vendor: ")
  (orReturn (runCommand "git" ["-C"; vendorPath; "pull"; "--recurse-submodules";
                               "origin"; "REL1_43"; "--quiet"])
           (ErrorfW "failed to pull vendor: ")
  (orReturn (Run {| Path := "composer"; Args := ["update"; "--no-dev"; "--quiet"];
                    Dir := STAGINGPATH; Stdio := false |})
           (ErrorfW "failed to run composer update: ")
  (ret None))).

(** update extensions *)
Definition updateExtension (extension : string) : M World (option error) :=
  let extPath := EXTENSIONPATH +++ "/" +++ extension in
  orReturn (runCommand "git" ["-C"; extPath; "pull"; "--recurse-submodules"; "--quiet"])
           (ErrorfW ("failed to update extension " +++ extension +++ ": "))
  (ret None).

(** update skins *)
Definition updateSkin (skin : string) : M World (option error) :=
  let skinPath := SKINPATH +++ "/" +++ skin in
  orReturn (runCommand "git" ["-C"; skinPath; "pull"; "--quiet"])
           (ErrorfW ("failed to update skin " +++ skin +++ ": "))
  (ret None).

Definition localParams (config : DeployConfig) : string :=
  if config.(IgnoreTime) then "--inplace" else "--update".

(** rsync to the production environment on the same server *)
Definition rsyncToLocalProduction (config : DeployConfig) : M World (option error) :=
  let rsyncParams := localParams config in
  orReturn (if config.(UpgradeVendor)
            then runRsync rsyncParams (STAGINGPATH +++ "/vendor/")
                                      (PRODUCTIONPATH +++ "/vendor/")
            else ret None) (fun err => err)
  (orReturn (range_err config.(UpgradeExtensions) (fun ext =>
               runRsync rsyncParams (EXTENSIONPATH +++ "/" +++ ext +++ "/")
                        (PRODUCTIONPATH +++ "/extensions/" +++ ext +++ "/")))
            (fun err => err)
  (orReturn (range_err config.(UpgradeSkins) (fun skin =>
               runRsync rsyncParams (SKINPATH +++ "/" +++ skin +++ "/")
                        (PRODUCTIONPATH +++ "/skins/" +++ skin +++ "/")))
            (fun err => err)
  (ret None))).

(** rebuild l10n *)
Definition rebuildL10n (lang : string) : M World (option error) :=
  let mergeScript := PRODUCTIONPATH +++
    "/extensions/TelepediaMagic/maintenance/mergeMessageFileList.php" in
  orReturn (Run {| Path := "php";
                   Args := [mergeScript; "--quiet"; "--wiki=metawiki";
                            "--extensions-dir=/prod/mediawiki/extensions:/prod/mediawiki/skins";
                            "--output"; PRODUCTIONPATH +++ "/config/ExtensionMessageFiles.php"];
                   Dir := ""; Stdio := false |})
           (ErrorfW "failed to merge message files: ")
  (let rebuildScript := PRODUCTIONPATH +++ "/maintenance/rebuildLocalisationCache.php" in
   let args := [rebuildScript; "--quiet"; "--wiki=metawiki"] in
   let args := if negb (String.eqb lang "") then args ++ ["--lang=" +++ lang] else args in
   orReturn (Run {| Path := "php"; Args := args; Dir := ""; Stdio := false |})
            (ErrorfW "failed to rebuild l10n cache: ")
   (ret None)).

Definition remoteParams (config : DeployConfig) : string :=
  let rsyncParams := "-e ssh -i /prod/mediawiki-staging/deploykey" in
  if config.(IgnoreTime) then "--inplace " +++ rsyncParams
  else "--update " +++ rsyncParams.

(** rsync the changed files to the other servers *)
Definition rsyncToRemoteServer (server : string) (config : DeployConfig)
  : M World (option error) :=
  let rsyncParams := remoteParams config in
  let src := PRODUCTIONPATH +++ "/" in
  let dst := DEPLOYUSER +++ "@" +++ server +++ ":" +++ PRODUCTIONPATH +++ "/" in
  runRsync rsyncParams src dst.

(** The failure handling after each step of [executeDeploy]:
    [if err != nil { exitCodes = append(exitCodes, 1); if !config.Force { return err } }].
    [inl err] is the function returning [err]. *)
Definition onError (config : DeployConfig) (exitCodes : list Z)
  (step : M World (option error)) : M World (error + list Z) :=
  err <- step ;;
  match err with
  | Some err =>
      let exitCodes := exitCodes ++ [1%Z] in
      if negb config.(Force) then ret (inl err) else ret (inr exitCodes)
  | None => ret (inr exitCodes)
  end.

(** Sequencing that stops at a [return]. *)
Definition andThen (m : M World (error + list Z))
  (k : list Z -> M World (error + list Z)) : M World (error + list Z) :=
  r <- m ;;
  match r with
  | inl err => ret (inl err)
  | inr exitCodes => k exitCodes
  end.

(** execute the deploy *)
Definition executeDeploy (g : Globals) (config : DeployConfig) : M World (option error) :=
  let exitCodes := [] in
  r <- andThen
         (if contains config.(Servers) g.(HOSTNAME) then
            andThen (if config.(UpgradeVendor)
                     then onError config exitCodes (traced DependencyUpdate updateVendor)
                     else ret (inr exitCodes)) (fun exitCodes =>
            andThen (range config.(UpgradeExtensions) (fun ext exitCodes =>
                       onError config exitCodes
                         (traced (ExtensionUpdate ext) (updateExtension ext)))
                     exitCodes) (fun exitCodes =>
            andThen (range config.(UpgradeSkins) (fun skin exitCodes =>
                       onError config exitCodes
                         (traced (SkinUpdate skin) (updateSkin skin)))
                     exitCodes) (fun exitCodes =>
            andThen (onError config exitCodes
                       (traced LocalSync (rsyncToLocalProduction config)))
                    (fun exitCodes =>
            if config.(L10n)
            then onError config exitCodes
                   (traced (LocalizationRebuild config.(Lang))
                           (rebuildL10n config.(Lang)))
            else ret (inr exitCodes)))))
          else ret (inr exitCodes))
         (fun exitCodes =>
            range config.(Servers) (fun server exitCodes =>
              if String.eqb server g.(HOSTNAME) then ret (inr exitCodes)
              else onError config exitCodes
                     (traced (RemoteSync server) (rsyncToRemoteServer server config)))
            exitCodes) ;;
  match r with
  | inl err => ret (Some err)
  | inr exitCodes => ret (scanExitCodes exitCodes)
  end.

(** One scan of [GetValidExtensions] / [GetValidSkins] over the entries of
    [path]: the directories that have a [.git] inside. *)
Fixpoint gitDirs (path : string) (entries : list DirEntry) : list string :=
  match entries with
  | [] => []
  | e :: rest =>
      if negb e.(IsDir) then gitDirs path rest
      else
        let gitPath := path +++ "/" +++ e.(Name) +++ "/.git" in
        match os_Stat gitPath with
        | None => e.(Name) :: gitDirs path rest
        | Some _ => gitDirs path rest
        end
  end.

(** get all of the valid extensions; [inl err] is [log.Fatal(err)]. *)
Definition GetValidExtensions : error + list string :=
  match os_ReadDir EXTENSIONPATH with
  | inl err => inl err
  | inr entries => inr (gitDirs EXTENSIONPATH entries)
  end.

(** get all of the valid skins; [inl err] is [log.Fatal(err)]. *)
Definition GetValidSkins : error + list string :=
  match os_ReadDir SKINPATH with
  | inl err => inl err
  | inr entries => inr (gitDirs SKINPATH entries)
  end.

(** The [--upgrade-world] block of [RunDeploy], reading the package
    variables as they are when it runs. *)
Definition expandWorld (g : Globals) (config : DeployConfig) : DeployConfig :=
  if config.(UpgradeWorld) then
    {| UpgradeExtensions := g.(VALIDEXTENSIONS);
       UpgradeSkins := g.(VALIDSKINS);
       UpgradeVendor := true;
       UpgradeWorld := config.(UpgradeWorld);
       L10n := true;
       Lang := config.(Lang);
       Servers := config.(Servers);
       IgnoreTime := true;
       Force := config.(Force) |}
  else config.

(** [RunDeploy] up to the call of [validateConfig]: the package variables
    and the config that validation and [executeDeploy] are given.  The
    statements are in the order of the source: hostname, flags, the
    [--upgrade-world] block, then the two inventory scans. *)
Definition resolve (flags : Flags) : error + Globals * DeployConfig :=
  match os_Hostname with
  | inl err => inl err
  | inr hname =>
      let g := {| HOSTNAME := hd "" (Split hname dot);
                  VALIDEXTENSIONS := globals0.(VALIDEXTENSIONS);
                  VALIDSKINS := globals0.(VALIDSKINS) |} in
      let config := parseFlags flags in
      let config := expandWorld g config in
      match GetValidExtensions with
      | inl err => inl err
      | inr exts =>
          let g := {| HOSTNAME := g.(HOSTNAME); VALIDEXTENSIONS := exts;
                      VALIDSKINS := g.(VALIDSKINS) |} in
          match GetValidSkins with
          | inl err => inl err
          | inr skins =>
              let g := {| HOSTNAME := g.(HOSTNAME);
                          VALIDEXTENSIONS := g.(VALIDEXTENSIONS);
                          VALIDSKINS := skins |} in
              inr (g, config)
          end
      end
  end.

(** actually run the deploy *)
Definition RunDeploy (flags : Flags) (w : World) : Outcome * State World :=
  match resolve flags with
  | inl err => (Fatal err, init w)
  | inr (g, config) =>
      match validateConfig g config with
      | Some err => (Fatal err, init w)
      | None =>
          let (r, st) := executeDeploy g config (init w) in
          match r with
          | Some err => (Fatal err, st)
          | None => (Completed, st)
          end
      end
  end.

(** ** The sequence the orchestrator is to follow

    These follow the algorithm as the specification words it, to be
    compared with what [executeDeploy] records in its step trace. *)

(** The local sequence: only when the local host is among the servers;
    dependency update if requested, each extension as declared, each skin
    as declared, the local mirror sync, localization if requested. *)
Definition local_sequence (g : Globals) (config : DeployConfig) : list Step :=
  if contains config.(Servers) g.(HOSTNAME) then
    (if config.(UpgradeVendor) then [DependencyUpdate] else [])
    ++ map ExtensionUpdate config.(UpgradeExtensions)
    ++ map SkinUpdate config.(UpgradeSkins)
    ++ [LocalSync]
    ++ (if config.(L10n) then [LocalizationRebuild config.(Lang)] else [])
  else [].

(** The servers of the request other than the local host, as listed. *)
Definition remote_targets (g : Globals) (config : DeployConfig) : list string :=
  filter (fun server => negb (String.eqb server g.(HOSTNAME))) config.(Servers).

Definition remote_sequence (g : Globals) (config : DeployConfig) : list Step :=
  map RemoteSync (remote_targets g config).

Definition mandated_sequence (g : Globals) (config : DeployConfig) : list Step :=
  local_sequence g config ++ remote_sequence g config.

(** The subtree mirrors in scope of the local sync: vendor if requested,
    then one per declared extension, then one per declared skin. *)
Definition mirror (params src dst : string) : Cmd :=
  command "rsync" (rsyncArgs params src dst).

Definition extensionMirror (config : DeployConfig) (ext : string) : Cmd :=
  mirror (localParams config) (EXTENSIONPATH +++ "/" +++ ext +++ "/")
         (PRODUCTIONPATH +++ "/extensions/" +++ ext +++ "/").

Definition skinMirror (config : DeployConfig) (skin : string) : Cmd :=
  mirror (localParams config) (SKINPATH +++ "/" +++ skin +++ "/")
         (PRODUCTIONPATH +++ "/skins/" +++ skin +++ "/").

Definition local_mirrors (config : DeployConfig) : list Cmd :=
  (if config.(UpgradeVendor)
   then [mirror (localParams config) (STAGINGPATH +++ "/vendor/")
                (PRODUCTIONPATH +++ "/vendor/")]
   else [])
  ++ map (extensionMirror config) config.(UpgradeExtensions)
  ++ map (skinMirror config) config.(UpgradeSkins).

(** The executor of a step. *)
Definition runStep (config : DeployConfig) (s : Step) : M World (option error) :=
  match s with
  | DependencyUpdate => updateVendor
  | ExtensionUpdate ext => updateExtension ext
  | SkinUpdate skin => updateSkin skin
  | LocalSync => rsyncToLocalProduction config
  | LocalizationRebuild lang => rebuildL10n lang
  | RemoteSync server => rsyncToRemoteServer server config
  end.

(** Driving a list of steps under the failure policy of [executeDeploy]. *)
Fixpoint runPlan (config : DeployConfig) (plan : list Step) (exitCodes : list Z)
  : M World (error + list Z) :=
  match plan with
  | [] => ret (inr exitCodes)
  | s :: rest =>
      andThen (onError config exitCodes (traced s (runStep config s)))
              (runPlan config rest)
  end.

(** Results of trace entries. *)
Definition failed {A : Type} (e : A * option error) : bool :=
  match snd e with Some _ => true | None => false end.

Definition allSucceeded {A : Type} (l : list (A * option error)) : Prop :=
  Forall (fun e => snd e = None) l.

(** [l1] is an initial part of [l2]. *)
Definition initialPart {A : Type} (l1 l2 : list A) : Prop :=
  exists rest, l2 = l1 ++ rest.





(** Running commands one after the other up to the first that fails. *)
Fixpoint runAll (cs : list Cmd) : M World (option error) :=
  match cs with
  | [] => ret None
  | c :: rest =>
      err <- Run c ;;
      match err with
      | Some e => ret (Some e)
      | None => runAll rest
      end
  end.

(** What [executeDeploy] returns from how [runPlan] ended. *)
Definition finish (r : error + list Z) : option error :=
  match r with
  | inl err => Some err
  | inr exitCodes => scanExitCodes exitCodes
  end.



Definition withForce (b : bool) (config : DeployConfig) : DeployConfig :=
  {| UpgradeExtensions := config.(UpgradeExtensions);
     UpgradeSkins := config.(UpgradeSkins);
     UpgradeVendor := config.(UpgradeVendor);
     UpgradeWorld := config.(UpgradeWorld);
     L10n := config.(L10n);
     Lang := config.(Lang);
     Servers := config.(Servers);
     IgnoreTime := config.(IgnoreTime);
     Force := b |}.

(** ** The commands of a step

    Each executor runs a fixed list of commands in order; with each
    command goes the way its error is wrapped when it fails. *)
Definition stepCmdsW (config : DeployConfig) (s : Step)
  : list (Cmd * (error -> error)) :=
  match s with
  | DependencyUpdate =>
      [ (command "git" ["-C"; STAGINGPATH +++ "/vendor"; "reset"; "--hard"],
         ErrorfW "failed to reset vendor: ");
        (command "git" ["-C"; STAGINGPATH +++ "/vendor"; "pull";
                        "--recurse-submodules"; "origin"; "REL1_43"; "--quiet"],
         ErrorfW "failed to pull vendor: ");
        ({| Path := "composer"; Args := ["update"; "--no-dev"; "--quiet"];
            Dir := STAGINGPATH; Stdio := false |},
         ErrorfW "failed to run composer update: ") ]
  | ExtensionUpdate ext =>
      [ (command "git" ["-C"; EXTENSIONPATH +++ "/" +++ ext; "pull";
                        "--recurse-submodules"; "--quiet"],
         ErrorfW ("failed to update extension " +++ ext +++ ": ")) ]
  | SkinUpdate skin =>
      [ (command "git" ["-C"; SKINPATH +++ "/" +++ skin; "pull"; "--quiet"],
         ErrorfW ("failed to update skin " +++ skin +++ ": ")) ]
  | LocalSync =>
      map (fun c => (c, fun err : error => err)) (local_mirrors config)
  | LocalizationRebuild lang =>
      [ ({| Path := "php";
            Args := [PRODUCTIONPATH +++
                       "/extensions/TelepediaMagic/maintenance/mergeMessageFileList.php";
                     "--quiet"; "--wiki=metawiki";
                     "--extensions-dir=/prod/mediawiki/extensions:/prod/mediawiki/skins";
                     "--output";
                     PRODUCTIONPATH +++ "/config/ExtensionMessageFiles.php"];
            Dir := ""; Stdio := false |},
         ErrorfW "failed to merge message files: ");
        ({| Path := "php";
            Args := (if negb (String.eqb lang "")
                     then [PRODUCTIONPATH +++ "/maintenance/rebuildLocalisationCache.php";
                           "--quiet"; "--wiki=metawiki"] ++ ["--lang=" +++ lang]
                     else [PRODUCTIONPATH +++ "/maintenance/rebuildLocalisationCache.php";
                           "--quiet"; "--wiki=metawiki"]);
            Dir := ""; Stdio := false |},
         ErrorfW "failed to rebuild l10n cache: ") ]
  | RemoteSync server =>
      [ (mirror (remoteParams config) (PRODUCTIONPATH +++ "/")
                (DEPLOYUSER +++ "@" +++ server +++ ":" +++ PRODUCTIONPATH +++ "/"),
         fun err : error => err) ]
  end.

Definition stepCmds (config : DeployConfig) (s : Step) : list Cmd :=
  map fst (stepCmdsW config s).

(** Running commands in order up to the first that fails, whose error is
    returned wrapped. *)
Fixpoint runWrapped (cs : list (Cmd * (error -> error))) : M World (option error) :=
  match cs with
  | [] => ret None
  | (c, wrap) :: rest => orReturn (Run c) wrap (runWrapped rest)
  end.

(** Whether character [c] occurs in [s]. *)
Fixpoint occurs (c : ascii) (s : string) : bool :=
  match s with
  | EmptyString => false
  | String a s' => if Ascii.eqb a c then true else occurs c s'
  end.

(** An entry that the inventory scan of [path] keeps: a directory whose
    [.git] can be stat'ed. *)
Definition isRepository (path : string) (e : DirEntry) : Prop :=
  IsDir e = true /\ os_Stat (path +++ "/" +++ Name e +++ "/.git") = None.

(** ** Traces of the executors *)

Lemma Run_steps c st : steps (snd (Run c st)) = steps st.
Proof. unfold Run. destruct (run c (world st)); reflexivity. Qed.

Lemma Run_cmds c st :
  cmds (snd (Run c st)) = cmds st ++ [(c, fst (Run c st))].
Proof. unfold Run. destruct (run c (world st)); reflexivity. Qed.

Lemma orReturn_steps m wrap k :
  (forall st, steps (snd (m st)) = steps st) ->
  (forall st, steps (snd (k st)) = steps st) ->
  forall st, steps (snd (orReturn m wrap k st)) = steps st.
Proof.
  intros Hm Hk st. unfold orReturn, bind.
  specialize (Hm st). destruct (m st) as [[e|] st1]; simpl in *.
  - exact Hm.
  - rewrite Hk. exact Hm.
Qed.

Lemma ret_steps {A} (a : A) (st : State World) : steps (snd (ret a st)) = steps st.
Proof. reflexivity. Qed.

Lemma range_err_steps l (body : string -> M World (option error)) :
  (forall x st, steps (snd (body x st)) = steps st) ->
  forall st, steps (snd (range_err l body st)) = steps st.
Proof.
  intros Hb. induction l as [|x l IH]; intros st; simpl.
  - reflexivity.
  - unfold bind. specialize (Hb x st).
    destruct (body x st) as [[e|] st1]; simpl in *.
    + exact Hb.
    + rewrite IH. exact Hb.
Qed.

Lemma runRsync_steps params src dst st :
  steps (snd (runRsync params src dst st)) = steps st.
Proof. apply Run_steps. Qed.

Lemma runStep_steps config s st :
  steps (snd (runStep config s st)) = steps st.
Proof.
  destruct s; simpl;
    unfold updateVendor, updateExtension, updateSkin, rsyncToLocalProduction,
      rebuildL10n, rsyncToRemoteServer, runCommand;
    repeat first
      [ apply runRsync_steps
      | apply Run_steps
      | apply ret_steps
      | apply orReturn_steps; intros
      | apply range_err_steps; intros
      | match goal with |- context [if ?b then _ else _] => destruct b end ].
Qed.

Lemma traced_steps s m st :
  steps (snd (traced s m st)) = steps (snd (m st)) ++ [(s, fst (traced s m st))].
Proof. unfold traced. destruct (m st); reflexivity. Qed.

(** ** The plan interpreter *)

Lemma initialPart_cons {A} (x : A) l1 l2 :
  initialPart l1 l2 -> initialPart (x :: l1) (x :: l2).
Proof. intros [rest ->]. exists rest. reflexivity. Qed.

Lemma initialPart_refl {A} (l : list A) : initialPart l l.
Proof. exists []. symmetry. apply app_nil_r. Qed.

Lemma runPlan_spec config plan : forall exitCodes st r st',
  runPlan config plan exitCodes st = (r, st') ->
  exists entries,
    steps st' = steps st ++ entries /\
    initialPart (map fst entries) plan /\
    match r with
    | inr codes' =>
        map fst entries = plan /\
        codes' = exitCodes ++ repeat 1%Z (length (filter failed entries)) /\
        (Force config = false -> allSucceeded entries)
    | inl err =>
        Force config = false /\
        exists ok s, entries = ok ++ [(s, Some err)] /\ allSucceeded ok
    end.
Proof.
  induction plan as [|a plan IH]; intros exitCodes st r st' H.
  - simpl in H. unfold ret in H. inversion H; subst. exists [].
    rewrite app_nil_r. repeat split.
    + apply initialPart_refl.
    + simpl. now rewrite app_nil_r.
    + intros _. constructor.
  - simpl in H. unfold andThen, onError, bind in H.
    pose proof (traced_steps a (runStep config a) st) as T.
    rewrite runStep_steps in T.
    destruct (traced a (runStep config a) st) as [err st1]. simpl in T.
    destruct err as [e|].
    + destruct (Force config) eqn:FF; simpl in H.
      * apply IH in H. destruct H as (entries & Hs & Hp & Hr).
        exists ((a, Some e) :: entries). split; [|split].
        -- rewrite Hs, T, <- app_assoc. reflexivity.
        -- simpl. now apply initialPart_cons.
        -- destruct r as [err|codes'].
           ++ destruct Hr as [Hr _]. discriminate.
           ++ destruct Hr as (Hm & Hc & _). repeat split.
              ** simpl. now rewrite Hm.
              ** simpl. rewrite Hc, <- app_assoc. reflexivity.
              ** intros; discriminate.
      * unfold ret in H. inversion H; subst. exists [(a, Some e)].
        split; [exact T|split].
        -- exists plan. reflexivity.
        -- split; [reflexivity|]. exists [], a. split; [reflexivity|constructor].
    + simpl in H. apply IH in H. destruct H as (entries & Hs & Hp & Hr).
      exists ((a, None) :: entries). split; [|split].
      * rewrite Hs, T, <- app_assoc. reflexivity.
      * simpl. now apply initialPart_cons.
      * destruct r as [err|codes'].
        -- destruct Hr as (Hf & ok & s & He & Hok). split; [exact Hf|].
           exists ((a, None) :: ok), s. split.
           ++ simpl. now rewrite He.
           ++ constructor; [reflexivity|exact Hok].
        -- destruct Hr as (Hm & Hc & Hall). repeat split.
           ++ simpl. now rewrite Hm.
           ++ exact Hc.
           ++ intros Hf. constructor; [reflexivity|now apply Hall].
Qed.

Lemma andThen_ext (m m' : M World (error + list Z)) k k' :
  (forall st, m st = m' st) ->
  (forall c st, k c st = k' c st) ->
  forall st, andThen m k st = andThen m' k' st.
Proof.
  intros Hm Hk st. unfold andThen, bind. rewrite Hm.
  destruct (m' st) as [[err|c] st1]; [reflexivity|apply Hk].
Qed.

Lemma andThen_ret_r (m : M World (error + list Z)) st :
  andThen m (fun c => ret (inr c)) st = m st.
Proof.
  unfold andThen, bind. destruct (m st) as [[err|c] st1]; reflexivity.
Qed.

Lemma runPlan_app config p1 p2 : forall exitCodes st,
  runPlan config (p1 ++ p2) exitCodes st
  = andThen (runPlan config p1 exitCodes) (runPlan config p2) st.
Proof.
  induction p1 as [|s p1 IH]; intros exitCodes st; simpl.
  - reflexivity.
  - unfold andThen, bind.
    destruct (onError config exitCodes (traced s (runStep config s)) st)
      as [[err|c] st1]; [reflexivity|].
    rewrite IH. reflexivity.
Qed.

Lemma range_runPlan config (mk : string -> Step) l : forall exitCodes st,
  range l (fun x exitCodes =>
             onError config exitCodes (traced (mk x) (runStep config (mk x))))
        exitCodes st
  = runPlan config (map mk l) exitCodes st.
Proof.
  induction l as [|x l IH]; intros exitCodes st; simpl.
  - reflexivity.
  - unfold andThen, bind.
    destruct (onError config exitCodes (traced (mk x) (runStep config (mk x))) st)
      as [[err|c] st1]; [reflexivity|apply IH].
Qed.

Lemma remote_loop_runPlan g config l : forall exitCodes st,
  range l (fun server exitCodes =>
             if String.eqb server g.(HOSTNAME) then ret (inr exitCodes)
             else onError config exitCodes
                    (traced (RemoteSync server) (rsyncToRemoteServer server config)))
        exitCodes st
  = runPlan config
      (map RemoteSync
         (filter (fun server => negb (String.eqb server g.(HOSTNAME))) l))
      exitCodes st.
Proof.
  induction l as [|x l IH]; intros exitCodes st; simpl.
  - reflexivity.
  - unfold bind. destruct (String.eqb x (HOSTNAME g)); simpl.
    + apply IH.
    + unfold andThen, bind. change (runStep config (RemoteSync x))
        with (rsyncToRemoteServer x config).
      destruct (onError config exitCodes
                  (traced (RemoteSync x) (rsyncToRemoteServer x config)) st)
        as [[err|c] st1]; [reflexivity|apply IH].
Qed.

(** [executeDeploy] drives the mandated sequence. *)
Lemma executeDeploy_runPlan g config st :
  executeDeploy g config st
  = (finish (fst (runPlan config (mandated_sequence g config) [] st)),
     snd (runPlan config (mandated_sequence g config) [] st)).
Proof.
  unfold executeDeploy, bind.
  assert (E : forall st,
    andThen
      (if contains (Servers config) (HOSTNAME g) then
         andThen (if UpgradeVendor config
                  then onError config [] (traced DependencyUpdate updateVendor)
                  else ret (inr []))
           (fun exitCodes =>
         andThen (range (UpgradeExtensions config) (fun ext exitCodes =>
                    onError config exitCodes
                      (traced (ExtensionUpdate ext) (updateExtension ext)))
                  exitCodes)
           (fun exitCodes =>
         andThen (range (UpgradeSkins config) (fun skin exitCodes =>
                    onError config exitCodes
                      (traced (SkinUpdate skin) (updateSkin skin)))
                  exitCodes)
           (fun exitCodes =>
         andThen (onError config exitCodes
                    (traced LocalSync (rsyncToLocalProduction config)))
           (fun exitCodes =>
         if L10n config
         then onError config exitCodes
                (traced (LocalizationRebuild (Lang config))
                        (rebuildL10n (Lang config)))
         else ret (inr exitCodes)))))
       else ret (inr []))
      (fun exitCodes =>
         range (Servers config) (fun server exitCodes =>
           if String.eqb server (HOSTNAME g) then ret (inr exitCodes)
           else onError config exitCodes
                  (traced (RemoteSync server) (rsyncToRemoteServer server config)))
         exitCodes) st
    = runPlan config (mandated_sequence g config) [] st).
  { intros st0. unfold mandated_sequence, remote_sequence, remote_targets.
    rewrite runPlan_app. apply andThen_ext.
    - intros st1. unfold local_sequence.
      destruct (contains (Servers config) (HOSTNAME g)); [|reflexivity].
      rewrite runPlan_app. apply andThen_ext.
      { intros st2. destruct (UpgradeVendor config); simpl; [|reflexivity].
        now rewrite andThen_ret_r. }
      intros c1 st2. rewrite runPlan_app. apply andThen_ext.
      { intros st3.
        apply (range_runPlan config ExtensionUpdate). }
      intros c2 st3. rewrite runPlan_app. apply andThen_ext.
      { intros st4. apply (range_runPlan config SkinUpdate). }
      intros c3 st4. rewrite runPlan_app. apply andThen_ext.
      { intros st5. simpl. now rewrite andThen_ret_r. }
      intros c4 st5. destruct (L10n config); simpl; [|reflexivity].
      now rewrite andThen_ret_r.
    - intros c st1. apply remote_loop_runPlan. }
  rewrite E.
  destruct (runPlan config (mandated_sequence g config) [] st) as [[err|c] st1];
    reflexivity.
Qed.

Lemma allSucceeded_no_failed {A} (l : list (A * option error)) :
  allSucceeded l -> filter failed l = [].
Proof.
  induction 1 as [|[a r] l Hr _ IH]; simpl; [reflexivity|].
  simpl in Hr. subst r. unfold failed at 1. simpl. exact IH.
Qed.

Lemma scanExitCodes_repeat n :
  scanExitCodes (repeat 1%Z n)
  = match n with
    | O => None
    | S _ => Some (Errorf "deployment completed with errors")
    end.
Proof. destruct n; reflexivity. Qed.


Lemma allSucceeded_not_in {A} (l : list (A * option error)) a err :
  allSucceeded l -> ~ In (a, Some err) l.
Proof.
  intros H I. unfold allSucceeded in H. rewrite Forall_forall in H.
  specialize (H _ I). discriminate.
Qed.


(** The three ways a run of [executeDeploy] can go. *)
Lemma executeDeploy_cases g config st :
  exists entries,
    steps (snd (executeDeploy g config st)) = steps st ++ entries /\
    initialPart (map fst entries) (mandated_sequence g config) /\
    ( (Force config = true /\
       map fst entries = mandated_sequence g config /\
       fst (executeDeploy g config st)
       = scanExitCodes (repeat 1%Z (length (filter failed entries))))
    \/ (Force config = false /\ allSucceeded entries /\
        map fst entries = mandated_sequence g config /\
        fst (executeDeploy g config st) = None)
    \/ (Force config = false /\
        exists ok s err,
          entries = ok ++ [(s, Some err)] /\ allSucceeded ok /\
          fst (executeDeploy g config st) = Some err) ).
Proof.
  rewrite executeDeploy_runPlan. simpl.
  destruct (runPlan config (mandated_sequence g config) [] st) as [r st'] eqn:E.
  apply runPlan_spec in E. destruct E as (entries & Hs & Hp & Hr).
  exists entries. simpl. split; [exact Hs|]. split; [exact Hp|].
  destruct r as [err|codes].
  - destruct Hr as (Hf & ok & s & He & Hok). right. right.
    split; [exact Hf|]. now exists ok, s, err.
  - destruct Hr as (Hm & Hc & Hall). simpl in Hc. subst codes.
    destruct (Force config) eqn:FF.
    + left. repeat split; assumption.
    + right. left. specialize (Hall eq_refl). repeat split; try assumption.
      simpl. now rewrite (allSucceeded_no_failed _ Hall).
Qed.

(** ** The sequences *)



















(** ** The local mirror sync as a run of commands *)

Lemma runAll_spec cs : forall st,
  exists results,
    cmds (snd (runAll cs st)) = cmds st ++ results /\
    initialPart (map fst results) cs /\
    ( (fst (runAll cs st) = None /\ map fst results = cs /\
       allSucceeded results)
    \/ (exists ok c err,
          results = ok ++ [(c, Some err)] /\ allSucceeded ok /\
          fst (runAll cs st) = Some err) ).
Proof.
  induction cs as [|c cs IH]; intros st; simpl.
  - exists []. rewrite app_nil_r. repeat split.
    + apply initialPart_refl.
    + left. repeat split. constructor.
  - unfold bind. pose proof (Run_cmds c st) as R.
    destruct (Run c st) as [[e|] st1]; simpl in R.
    + exists [(c, Some e)]. split; [exact R|]. split.
      * exists cs. reflexivity.
      * right. exists [], c, e. repeat split. constructor.
    + destruct (IH st1) as (results & Hc & Hp & Hr).
      exists ((c, None) :: results). split; [|split].
      * rewrite Hc, R, <- app_assoc. reflexivity.
      * simpl. now apply initialPart_cons.
      * destruct Hr as [(Hn & Hm & Hall)|(ok & c' & err & He & Hok & Hs)].
        -- left. repeat split; [exact Hn|simpl; now rewrite Hm|].
           constructor; [reflexivity|exact Hall].
        -- right. exists ((c, None) :: ok), c', err. repeat split.
           ++ simpl. now rewrite He.
           ++ constructor; [reflexivity|exact Hok].
           ++ exact Hs.
Qed.

Lemma orReturn_ext (m m' : M World (option error)) wrap k k' :
  (forall st, m st = m' st) -> (forall st, k st = k' st) ->
  forall st, orReturn m wrap k st = orReturn m' wrap k' st.
Proof.
  intros Hm Hk st. unfold orReturn, bind. rewrite Hm.
  destruct (m' st) as [[e|] st1]; [reflexivity|apply Hk].
Qed.

Lemma orReturn_ret_r (m : M World (option error)) st :
  orReturn m (fun err => err) (ret None) st = m st.
Proof.
  unfold orReturn, bind. destruct (m st) as [[e|] st1]; reflexivity.
Qed.

Lemma runAll_app a b : forall st,
  runAll (a ++ b) st = orReturn (runAll a) (fun err => err) (runAll b) st.
Proof.
  induction a as [|c a IH]; intros st; simpl.
  - reflexivity.
  - unfold orReturn, bind. destruct (Run c st) as [[e|] st1]; [reflexivity|].
    rewrite IH. reflexivity.
Qed.

Lemma range_err_runAll params (src dst : string -> string) l : forall st,
  range_err l (fun x => runRsync params (src x) (dst x)) st
  = runAll (map (fun x => mirror params (src x) (dst x)) l) st.
Proof.
  induction l as [|x l IH]; intros st; simpl.
  - reflexivity.
  - unfold bind, runRsync, runCommand, mirror.
    destruct (Run (command "rsync" (rsyncArgs params (src x) (dst x))) st)
      as [[e|] st1]; [reflexivity|apply IH].
Qed.

(** The local sync runs its mirrors in order up to the first failure. *)
Lemma rsyncToLocalProduction_runAll config st :
  rsyncToLocalProduction config st = runAll (local_mirrors config) st.
Proof.
  unfold rsyncToLocalProduction, local_mirrors.
  rewrite runAll_app. apply orReturn_ext.
  - intros st1. destruct (UpgradeVendor config); [|reflexivity].
    simpl. unfold bind, runRsync, runCommand, mirror.
    destruct (Run _ st1) as [[e|] st2]; reflexivity.
  - intros st1. rewrite runAll_app. apply orReturn_ext.
    + intros st2. unfold extensionMirror.
      apply (range_err_runAll (localParams config)
               (fun ext => EXTENSIONPATH +++ "/" +++ ext +++ "/")
               (fun ext => PRODUCTIONPATH +++ "/extensions/" +++ ext +++ "/")).
    + intros st2. rewrite orReturn_ret_r. unfold skinMirror.
      apply (range_err_runAll (localParams config)
               (fun skin => SKINPATH +++ "/" +++ skin +++ "/")
               (fun skin => PRODUCTIONPATH +++ "/skins/" +++ skin +++ "/")).
Qed.

(** ** Validation *)

Lemma first_invalid_None valid l :
  first_invalid valid l = None <->
  forall x, In x l -> contains valid x = true.
Proof.
  induction l as [|y l IH]; simpl.
  - split; [intros _ x []|reflexivity].
  - destruct (contains valid y) eqn:C; simpl.
    + rewrite IH. split.
      * intros H x [<-|I]; [exact C|now apply H].
      * intros H x I. apply H. now right.
    + split; [discriminate|]. intros H.
      specialize (H y (or_introl eq_refl)). congruence.
Qed.

Lemma first_invalid_Some valid pre x post :
  (forall y, In y pre -> contains valid y = true) ->
  contains valid x = false ->
  first_invalid valid (pre ++ x :: post) = Some x.
Proof.
  intros Hpre Hx. induction pre as [|y pre IH]; simpl.
  - now rewrite Hx.
  - rewrite (Hpre y (or_introl eq_refl)). simpl. apply IH.
    intros z I. apply Hpre. now right.
Qed.

Lemma validateConfig_None_iff g config :
  validateConfig g config = None <->
  (forall x, In x (UpgradeExtensions config) ->
             contains (VALIDEXTENSIONS g) x = true) /\
  (forall x, In x (UpgradeSkins config) ->
             contains (VALIDSKINS g) x = true) /\
  Servers config <> [] /\
  (Lang config = "" \/ L10n config = true).
Proof.
  unfold validateConfig. rewrite <- !first_invalid_None.
  destruct (first_invalid (VALIDEXTENSIONS g) (UpgradeExtensions config)).
  { split; [discriminate|]. intros (H & _). discriminate. }
  destruct (first_invalid (VALIDSKINS g) (UpgradeSkins config)).
  { split; [discriminate|]. intros (_ & H & _). discriminate. }
  destruct (Servers config) as [|s l]; simpl.
  { split; [discriminate|]. intros (_ & _ & H & _). congruence. }
  destruct (String.eqb_spec (Lang config) "") as [El|El]; simpl.
  { split; [|reflexivity]. intros _. repeat split; [discriminate|now left]. }
  destruct (L10n config); simpl.
  { split; [|reflexivity]. intros _. repeat split; [discriminate|now right]. }
  split; [discriminate|]. intros (_ & _ & _ & [H|H]); congruence.
Qed.

(** ** Properties of the pipeline *)

(** C7.  Validation is a function of the package variables and the config
    alone: it returns at most one error and nothing else.  Its result is
    the first violation in the scan order: the first declared extension
    that is not in the inventory; failing that the first such skin;
    failing that the empty server list; failing that a language filter
    without localization.  It returns nil exactly when no rule is
    violated.  In [RunDeploy] it leaves the world and the traces as they
    were: on an error the run ends in the initial state, and otherwise
    [executeDeploy] starts from the initial state with the same config. *)
Theorem C7_validation_first_violation g config :
  (forall pre ext post,
      UpgradeExtensions config = pre ++ ext :: post ->
      (forall x, In x pre -> contains (VALIDEXTENSIONS g) x = true) ->
      contains (VALIDEXTENSIONS g) ext = false ->
      validateConfig g config = Some (errInvalidExtension ext)) /\
  (forall pre skin post,
      (forall x, In x (UpgradeExtensions config) ->
                 contains (VALIDEXTENSIONS g) x = true) ->
      UpgradeSkins config = pre ++ skin :: post ->
      (forall x, In x pre -> contains (VALIDSKINS g) x = true) ->
      contains (VALIDSKINS g) skin = false ->
      validateConfig g config = Some (errInvalidSkin skin)) /\
  ((forall x, In x (UpgradeExtensions config) ->
              contains (VALIDEXTENSIONS g) x = true) ->
   (forall x, In x (UpgradeSkins config) ->
              contains (VALIDSKINS g) x = true) ->
   Servers config = [] ->
   validateConfig g config = Some errNoServers) /\
  ((forall x, In x (UpgradeExtensions config) ->
              contains (VALIDEXTENSIONS g) x = true) ->
   (forall x, In x (UpgradeSkins config) ->
              contains (VALIDSKINS g) x = true) ->
   Servers config <> [] ->
   Lang config <> "" -> L10n config = false ->
   validateConfig g config = Some errLangNeedsL10n) /\
  (validateConfig g config = None <->
   (forall x, In x (UpgradeExtensions config) ->
              contains (VALIDEXTENSIONS g) x = true) /\
   (forall x, In x (UpgradeSkins config) ->
              contains (VALIDSKINS g) x = true) /\
   Servers config <> [] /\
   (Lang config = "" \/ L10n config = true)) /\
  (forall flags w,
      resolve flags = inr (g, config) ->
      RunDeploy flags w
      = match validateConfig g config with
        | Some err => (Fatal err, init w)
        | None =>
            (match fst (executeDeploy g config (init w)) with
             | Some err => Fatal err
             | None => Completed
             end,
             snd (executeDeploy g config (init w)))
        end).
Proof.
  split; [|split; [|split; [|split; [|split]]]];
    [unfold validateConfig ..| |].
  - intros pre ext post E Hpre Hext.
    now rewrite E, (first_invalid_Some _ _ _ _ Hpre Hext).
  - intros pre skin post Hexts E Hpre Hskin.
    apply first_invalid_None in Hexts. rewrite Hexts.
    now rewrite E, (first_invalid_Some _ _ _ _ Hpre Hskin).
  - intros Hexts Hskins Hs.
    apply first_invalid_None in Hexts, Hskins. rewrite Hexts, Hskins.
    now rewrite Hs.
  - intros Hexts Hskins Hs Hl Hn.
    apply first_invalid_None in Hexts, Hskins. rewrite Hexts, Hskins.
    destruct (Servers config); [congruence|]. simpl.
    apply String.eqb_neq in Hl. now rewrite Hl, Hn.
  - apply validateConfig_None_iff.
  - intros flags w R. unfold RunDeploy. rewrite R.
    destruct (validateConfig g config); [reflexivity|].
    destruct (executeDeploy g config (init w)) as [[err|] st]; reflexivity.
Qed.








(** C9.  The local mirror sync issues its subtree mirrors (vendor, each
    extension, each skin) in order and returns at the first that fails,
    with that mirror's error: the mirrors after it are not issued.  It
    does not consult [Force], so this holds under continue-on-error too;
    that policy acts only on the result of the step as a whole. *)
Theorem C9_local_sync_stops_at_first_failure config st :
  (exists results,
     cmds (snd (rsyncToLocalProduction config st)) = cmds st ++ results /\
     initialPart (map fst results) (local_mirrors config) /\
     ( (fst (rsyncToLocalProduction config st) = None /\
        map fst results = local_mirrors config /\ allSucceeded results)
     \/ (exists ok c err,
           results = ok ++ [(c, Some err)] /\ allSucceeded ok /\
           fst (rsyncToLocalProduction config st) = Some err) )) /\
  rsyncToLocalProduction (withForce true config) st
  = rsyncToLocalProduction config st.
Proof.
  split; [|reflexivity].
  rewrite rsyncToLocalProduction_runAll. apply runAll_spec.
Qed.


(** C2.  The command of a remote sync, for every server and config: rsync
    with the mode of the local sync first, then the words of
    ["-e ssh -i /prod/mediawiki-staging/deploykey"] as separate arguments,
    then the fixed options, the production root and
    user@server:production-root.  The remote shell rsync is given is "ssh"
    alone, and the key path stands among the transfer endpoints, which are
    three. *)
Theorem C2_remote_sync_command server config st :
  issued (snd (rsyncToRemoteServer server config st))
  = issued st ++
    [command "rsync"
       [localParams config; "-e"; "ssh"; "-i";
        "/prod/mediawiki-staging/deploykey";
        "-r"; "--delete"; "--exclude=.*"; PRODUCTIONPATH +++ "/";
        DEPLOYUSER +++ "@" +++ server +++ ":" +++ PRODUCTIONPATH +++ "/"]] /\
  rsyncRemoteShell
    (rsyncArgs (remoteParams config) (PRODUCTIONPATH +++ "/")
       (DEPLOYUSER +++ "@" +++ server +++ ":" +++ PRODUCTIONPATH +++ "/"))
  = Some "ssh" /\
  rsyncEndpoints
    (rsyncArgs (remoteParams config) (PRODUCTIONPATH +++ "/")
       (DEPLOYUSER +++ "@" +++ server +++ ":" +++ PRODUCTIONPATH +++ "/"))
  = ["/prod/mediawiki-staging/deploykey"; PRODUCTIONPATH +++ "/";
     DEPLOYUSER +++ "@" +++ server +++ ":" +++ PRODUCTIONPATH +++ "/"].
Proof.
  unfold rsyncToRemoteServer, runRsync, runCommand, issued.
  rewrite Run_cmds, map_app. simpl map.
  unfold remoteParams, localParams.
  destruct (IgnoreTime config); repeat split.
Qed.

(** C8 (amended).  When the resolved request has no servers, validation
    fails.  The error is the no-servers error exactly when every declared
    extension and skin is in the inventory; otherwise it is the
    unknown-extension error of the first declared extension that is not
    in the inventory or, when all extensions are known, the unknown-skin
    error of the first such skin.  [RunDeploy] then ends with that error
    before any step or command is run, and the error is the no-servers
    error in particular whenever [--upgrade-world] was given. *)
Theorem C8_no_servers g config :
  Servers config = [] ->
  exists err,
    validateConfig g config = Some err /\
    (err = errNoServers <->
     (forall x, In x (UpgradeExtensions config) ->
                contains (VALIDEXTENSIONS g) x = true) /\
     (forall x, In x (UpgradeSkins config) ->
                contains (VALIDSKINS g) x = true)) /\
    (forall pre ext post,
        UpgradeExtensions config = pre ++ ext :: post ->
        (forall x, In x pre -> contains (VALIDEXTENSIONS g) x = true) ->
        contains (VALIDEXTENSIONS g) ext = false ->
        err = errInvalidExtension ext) /\
    (forall pre skin post,
        (forall x, In x (UpgradeExtensions config) ->
                   contains (VALIDEXTENSIONS g) x = true) ->
        UpgradeSkins config = pre ++ skin :: post ->
        (forall x, In x pre -> contains (VALIDSKINS g) x = true) ->
        contains (VALIDSKINS g) skin = false ->
        err = errInvalidSkin skin) /\
    (forall flags w,
        resolve flags = inr (g, config) ->
        RunDeploy flags w = (Fatal err, init w) /\
        (upgradeWorld flags = true -> err = errNoServers)).
Proof.
  intros S.
  assert (V : validateConfig g config <> None).
  { intros V. apply validateConfig_None_iff in V. now destruct V as (_ & _ & V & _). }
  destruct (validateConfig g config) as [err|] eqn:E; [|congruence].
  exists err. split; [reflexivity|]. split; [|split; [|split]].
  - unfold validateConfig in E. rewrite <- !first_invalid_None.
    destruct (first_invalid (VALIDEXTENSIONS g) (UpgradeExtensions config))
      as [ext|].
    { inversion E; subst err. unfold errInvalidExtension, errNoServers.
      split; [intros H; cbn in H; discriminate|intros (H & _); discriminate]. }
    destruct (first_invalid (VALIDSKINS g) (UpgradeSkins config)) as [skin|].
    { inversion E; subst err. unfold errInvalidSkin, errNoServers.
      split; [intros H; cbn in H; discriminate|intros (_ & H); discriminate]. }
    rewrite S in E. simpl in E. inversion E. now split.
  - intros pre ext post Ee Hpre Hext. unfold validateConfig in E.
    rewrite Ee, (first_invalid_Some _ _ _ _ Hpre Hext) in E. congruence.
  - intros pre skin post Hexts Es Hpre Hskin. unfold validateConfig in E.
    apply first_invalid_None in Hexts.
    rewrite Hexts, Es, (first_invalid_Some _ _ _ _ Hpre Hskin) in E. congruence.
  - intros flags w R. split.
    + unfold RunDeploy. now rewrite R, E.
    + intros U. unfold resolve in R.
      destruct os_Hostname as [e|hname]; [discriminate|].
      destruct GetValidExtensions as [e|exts]; [discriminate|].
      destruct GetValidSkins as [e|skins]; [discriminate|].
      inversion R; subst. clear R.
      unfold validateConfig, expandWorld in E. unfold expandWorld in S.
      change (UpgradeWorld (parseFlags flags)) with (upgradeWorld flags) in E, S.
      rewrite U in E, S. simpl in E, S. rewrite S in E. simpl in E. congruence.
Qed.

(** ** Further properties: flags, inventory, executors, composition *)

(** X1.  [contains] is membership: it returns true exactly when the item
    is an element of the slice. *)
Theorem contains_In slice item :
  contains slice item = true <-> In item slice.
Proof.
  induction slice as [|s rest IH]; simpl.
  - split; [discriminate|intros []].
  - destruct (String.eqb_spec s item) as [E|N].
    + split; [now left|reflexivity].
    + rewrite IH. split; [now right|]. intros [E|I]; [contradiction|exact I].
Qed.

Lemma Split_nonempty s sep : Split s sep <> [].
Proof.
  destruct s as [|c s]; simpl; [discriminate|].
  destruct (Ascii.eqb c sep); [discriminate|].
  destruct (Split s sep); discriminate.
Qed.

(** X2.  A list flag gives an empty list exactly when the flag is the
    empty string: for the servers (so that the no-servers error of
    validation is the error of a missing or empty [--servers]), and for
    the extensions and the skins. *)
Theorem parseFlags_empty_lists f :
  (Servers (parseFlags f) = [] <-> servers f = "") /\
  (UpgradeExtensions (parseFlags f) = [] <-> upgradeExtensions f = "") /\
  (UpgradeSkins (parseFlags f) = [] <-> upgradeSkins f = "").
Proof.
  unfold parseFlags; simpl. repeat split.
  - destruct (String.eqb_spec (servers f) ""); [easy|].
    destruct (String.eqb (servers f) "all"); [discriminate|].
    intros H. now apply Split_nonempty in H.
  - intros ->. reflexivity.
  - destruct (String.eqb_spec (upgradeExtensions f) ""); [easy|].
    intros H. now apply Split_nonempty in H.
  - intros ->. reflexivity.
  - destruct (String.eqb_spec (upgradeSkins f) ""); [easy|].
    intros H. now apply Split_nonempty in H.
  - intros ->. reflexivity.
Qed.

Lemma concat_Split s sep :
  String.concat (String sep EmptyString) (Split s sep) = s.
Proof.
  induction s as [|c s IH]; simpl; [reflexivity|].
  pose proof (Split_nonempty s sep) as N.
  destruct (Ascii.eqb_spec c sep) as [->|Hc].
  - destruct (Split s sep) as [|h t]; [congruence|].
    simpl in *. now rewrite IH.
  - destruct (Split s sep) as [|h t]; [congruence|].
    destruct t as [|h' t]; simpl in *; now rewrite <- IH.
Qed.

Lemma Split_no_sep s sep :
  Forall (fun piece => occurs sep piece = false) (Split s sep).
Proof.
  induction s as [|c s IH]; simpl.
  - repeat constructor.
  - destruct (Ascii.eqb c sep) eqn:E.
    + constructor; [reflexivity|exact IH].
    + destruct (Split s sep) as [|h t]; [repeat constructor; simpl; now rewrite E|].
      inversion IH; subst. constructor; [simpl; now rewrite E|assumption].
Qed.

(** X3.  The extensions and skins of the config are the flag cut at its
    commas and nowhere else: no name holds a comma, and joining the names
    with commas gives the flag back, so nothing is trimmed, dropped or
    merged.  The same holds of the servers unless the flag is the word
    all. *)
Theorem parseFlags_round_trip f :
  String.concat "," (UpgradeExtensions (parseFlags f)) = upgradeExtensions f /\
  String.concat "," (UpgradeSkins (parseFlags f)) = upgradeSkins f /\
  (servers f <> "all" ->
   String.concat "," (Servers (parseFlags f)) = servers f) /\
  Forall (fun name => occurs comma name = false)
         (UpgradeExtensions (parseFlags f) ++ UpgradeSkins (parseFlags f)).
Proof.
  unfold parseFlags; simpl. repeat split.
  - destruct (String.eqb_spec (upgradeExtensions f) "") as [->|]; [reflexivity|].
    apply (concat_Split _ comma).
  - destruct (String.eqb_spec (upgradeSkins f) "") as [->|]; [reflexivity|].
    apply (concat_Split _ comma).
  - intros N. destruct (String.eqb_spec (servers f) "") as [->|]; [reflexivity|].
    destruct (String.eqb_spec (servers f) "all"); [contradiction|].
    apply (concat_Split _ comma).
  - apply Forall_app. split.
    + destruct (String.eqb (upgradeExtensions f) ""); [constructor|].
      apply Split_no_sep.
    + destruct (String.eqb (upgradeSkins f) ""); [constructor|].
      apply Split_no_sep.
Qed.

Lemma gitDirs_In path entries name :
  In name (gitDirs path entries) <->
  exists e, In e entries /\ Name e = name /\ isRepository path e.
Proof.
  unfold isRepository. induction entries as [|e entries IH]; cbn [gitDirs].
  - split; [intros []|intros (e & [] & _)].
  - destruct (IsDir e) eqn:D; cbn [negb].
    + destruct (os_Stat (path +++ "/" +++ Name e +++ "/.git")) as [err|] eqn:S.
      * split.
        -- intros I. apply IH in I. destruct I as (x & I & H).
           exists x. split; [now right|exact H].
        -- intros (x & [E|I] & N & D' & S'); [subst x; congruence|].
           apply IH. exists x. repeat split; assumption.
      * split.
        -- intros [E|I].
           ++ exists e. repeat split; [now left|exact E|exact D|exact S].
           ++ apply IH in I. destruct I as (x & I & H).
              exists x. split; [now right|exact H].
        -- intros (x & [E|I] & N & H); [subst x; now left|].
           right. apply IH. exists x. split; [exact I|]. split; [exact N|exact H].
    + split.
      * intros I. apply IH in I. destruct I as (x & I & H).
        exists x. split; [now right|exact H].
      * intros (x & [E|I] & N & D' & S'); [subst x; congruence|].
        apply IH. exists x. repeat split; assumption.
Qed.

Lemma contains_true_In slice item :
  contains slice item = true -> In item slice.
Proof.
  induction slice as [|s rest IH]; simpl; [discriminate|].
  destruct (String.eqb_spec s item) as [E|N]; [now left|].
  intros H. right. now apply IH.
Qed.

(** X4.  The inventory scans: when the directory cannot be read the scan
    is fatal with that error; otherwise a name is in the inventory exactly
    when some entry of that name is a directory whose [.git] can be
    stat'ed.  Plain files, and directories without [.git], are left
    out. *)
Theorem inventory_scan :
  (forall err, os_ReadDir EXTENSIONPATH = inl err ->
               GetValidExtensions = inl err) /\
  (forall entries, os_ReadDir EXTENSIONPATH = inr entries ->
     exists names, GetValidExtensions = inr names /\
       forall name, In name names <->
         exists e, In e entries /\ Name e = name /\
                   isRepository EXTENSIONPATH e) /\
  (forall err, os_ReadDir SKINPATH = inl err -> GetValidSkins = inl err) /\
  (forall entries, os_ReadDir SKINPATH = inr entries ->
     exists names, GetValidSkins = inr names /\
       forall name, In name names <->
         exists e, In e entries /\ Name e = name /\
                   isRepository SKINPATH e).
Proof.
  unfold GetValidExtensions, GetValidSkins. repeat split.
  - intros err E. now rewrite E.
  - intros entries E. rewrite E. eexists. split; [reflexivity|].
    intros name. apply gitDirs_In.
  - intros err E. now rewrite E.
  - intros entries E. rewrite E. eexists. split; [reflexivity|].
    intros name. apply gitDirs_In.
Qed.

(** X5.  What reaches [executeDeploy]: when the run gets past validation,
    every extension of the config is the name of a directory of the
    extensions path that holds a [.git], and every skin likewise under the
    skins path. *)
Theorem validated_targets_are_repositories flags g config :
  resolve flags = inr (g, config) ->
  validateConfig g config = None ->
  (forall ext, In ext (UpgradeExtensions config) ->
     exists entries e,
       os_ReadDir EXTENSIONPATH = inr entries /\ In e entries /\
       Name e = ext /\ isRepository EXTENSIONPATH e) /\
  (forall skin, In skin (UpgradeSkins config) ->
     exists entries e,
       os_ReadDir SKINPATH = inr entries /\ In e entries /\
       Name e = skin /\ isRepository SKINPATH e).
Proof.
  intros R V. apply validateConfig_None_iff in V. destruct V as (Ve & Vs & _).
  unfold resolve, GetValidExtensions, GetValidSkins in R.
  destruct os_Hostname as [e|hname]; [discriminate|].
  destruct (os_ReadDir EXTENSIONPATH) as [e|eentries]; [discriminate|].
  destruct (os_ReadDir SKINPATH) as [e|sentries]; [discriminate|].
  inversion R; subst g config; clear R. simpl in Ve, Vs. split.
  - intros ext I. apply Ve, contains_true_In, gitDirs_In in I.
    destruct I as (e & I & N & H). now exists eentries, e.
  - intros skin I. apply Vs, contains_true_In, gitDirs_In in I.
    destruct I as (e & I & N & H). now exists sentries, e.
Qed.

(** ** The executors as runs of commands *)

Lemma runWrapped_spec cs : forall st,
  steps (snd (runWrapped cs st)) = steps st /\
  exists results,
    cmds (snd (runWrapped cs st)) = cmds st ++ results /\
    ( (fst (runWrapped cs st) = None /\
       map fst results = map fst cs /\ allSucceeded results)
    \/ (exists pre c wrap post ok err,
          cs = pre ++ (c, wrap) :: post /\
          results = ok ++ [(c, Some err)] /\
          map fst ok = map fst pre /\ allSucceeded ok /\
          fst (runWrapped cs st) = Some (wrap err)) ).
Proof.
  induction cs as [|[c wrap] cs IH]; intros st; cbn [runWrapped].
  - split; [reflexivity|]. exists []. rewrite app_nil_r.
    split; [reflexivity|]. left. repeat split. constructor.
  - unfold orReturn, bind.
    pose proof (Run_cmds c st) as R. pose proof (Run_steps c st) as T.
    destruct (Run c st) as [[e|] st1]; simpl in R, T.
    + split; [exact T|]. exists [(c, Some e)]. split; [exact R|].
      right. exists [], c, wrap, cs, [], e. repeat split. constructor.
    + destruct (IH st1) as (Hs & results & Hc & Hr).
      split; [now rewrite Hs|].
      exists ((c, None) :: results). split.
      { rewrite Hc, R, <- app_assoc. reflexivity. }
      destruct Hr as [(Hn & Hm & Hall)
                     |(pre & c' & wrap' & post & ok & err & E & Hres & Hmap & Hok & Hf)].
      * left. repeat split; [exact Hn|simpl; now rewrite Hm|].
        constructor; [reflexivity|exact Hall].
      * right. exists ((c, wrap) :: pre), c', wrap', post, ((c, None) :: ok), err.
        repeat split.
        -- simpl. now rewrite E.
        -- simpl. now rewrite Hres.
        -- simpl. now rewrite Hmap.
        -- constructor; [reflexivity|exact Hok].
        -- exact Hf.
Qed.

Lemma runAll_runWrapped cs : forall st,
  runAll cs st = runWrapped (map (fun c => (c, fun err : error => err)) cs) st.
Proof.
  induction cs as [|c cs IH]; intros st; simpl; [reflexivity|].
  unfold orReturn, bind. destruct (Run c st) as [[e|] st1]; [reflexivity|apply IH].
Qed.

Lemma runStep_runWrapped config s st :
  runStep config s st = runWrapped (stepCmdsW config s) st.
Proof.
  destruct s; simpl runStep.
  - reflexivity.
  - reflexivity.
  - reflexivity.
  - rewrite rsyncToLocalProduction_runAll. apply runAll_runWrapped.
  - reflexivity.
  - unfold stepCmdsW. cbn [runWrapped]. rewrite orReturn_ret_r. reflexivity.
Qed.

(** X6.  Every step executor (dependency update, extension update, skin
    update, local sync, localization rebuild, remote sync) runs the
    commands of its step in order and nothing else, and leaves the step
    trace alone.  It returns nil exactly when all of them were run and
    succeeded; otherwise it has stopped at the first command that failed,
    the later ones are not run, and it returns that command's error in the
    wrapping of that command. *)
Theorem runStep_commands config s st :
  steps (snd (runStep config s st)) = steps st /\
  exists results,
    cmds (snd (runStep config s st)) = cmds st ++ results /\
    ( (fst (runStep config s st) = None /\
       map fst results = stepCmds config s /\ allSucceeded results)
    \/ (exists pre c wrap post ok err,
          stepCmdsW config s = pre ++ (c, wrap) :: post /\
          results = ok ++ [(c, Some err)] /\
          map fst ok = map fst pre /\ allSucceeded ok /\
          fst (runStep config s st) = Some (wrap err)) ).
Proof.
  rewrite runStep_runWrapped. apply runWrapped_spec.
Qed.

(** ** The command trace of a run *)

Lemma traced_cmds s m st :
  cmds (snd (traced s m st)) = cmds (snd (m st)).
Proof. unfold traced. destruct (m st); reflexivity. Qed.

Lemma onError_state config exitCodes m st :
  snd (onError config exitCodes m st) = snd (m st).
Proof.
  unfold onError, bind. destruct (m st) as [[e|] st1]; simpl; [|reflexivity].
  destruct (Force config); reflexivity.
Qed.

Lemma runStep_issued config s st :
  exists results,
    cmds (snd (runStep config s st)) = cmds st ++ results /\
    incl (map fst results) (stepCmds config s).
Proof.
  rewrite runStep_runWrapped.
  destruct (runWrapped_spec (stepCmdsW config s) st)
    as (_ & results & Hc & [(_ & Hm & _)
                          |(pre & c & wrap & post & ok & err & E & Hr & Hm & _)]);
    exists results; (split; [exact Hc|]); unfold stepCmds.
  - rewrite Hm. apply incl_refl.
  - rewrite Hr, E, !map_app, Hm. simpl. intros x I.
    apply in_app_or in I. apply in_or_app.
    destruct I as [I|[<-|[]]]; [now left|right; now left].
Qed.

Lemma runPlan_issued config plan : forall exitCodes st,
  exists new,
    cmds (snd (runPlan config plan exitCodes st)) = cmds st ++ new /\
    incl (map fst new) (flat_map (stepCmds config) plan).
Proof.
  induction plan as [|s plan IH]; intros exitCodes st; cbn [runPlan flat_map].
  - exists []. simpl. rewrite app_nil_r. split; [reflexivity|apply incl_refl].
  - unfold andThen, bind.
    destruct (runStep_issued config s st) as (results & Hc & Hi).
    assert (S : cmds (snd (onError config exitCodes
                             (traced s (runStep config s)) st))
                = cmds st ++ results)
      by (rewrite onError_state, traced_cmds; exact Hc).
    destruct (onError config exitCodes (traced s (runStep config s)) st)
      as [[e|codes] st1]; cbn [snd] in S.
    + exists results. cbn [snd ret]. split; [exact S|].
      now apply incl_appl.
    + destruct (IH codes st1) as (new & Hn & Hin).
      exists (results ++ new). rewrite Hn, S, app_assoc.
      split; [reflexivity|]. rewrite map_app. now apply incl_app_app.
Qed.

(** X9.  In every run, whatever fails and whatever the policy, each
    command that [executeDeploy] runs is a command of a step of the
    mandated sequence: nothing else is ever run. *)
Theorem executeDeploy_runs_only_mandated_commands g config w :
  incl (issued (snd (executeDeploy g config (init w))))
       (flat_map (stepCmds config) (mandated_sequence g config)).
Proof.
  rewrite executeDeploy_runPlan. cbn [snd].
  destruct (runPlan_issued config (mandated_sequence g config) [] (init w))
    as (new & Hn & Hi).
  unfold issued. rewrite Hn. exact Hi.
Qed.

(** X10.  On a host that is not among the servers of the request, every
    command of the run is the rsync of the production root to one of the
    listed servers: no git, composer or php command is run and nothing is
    mirrored locally. *)
Theorem host_out_of_scope_only_remote_mirrors g config w :
  contains (Servers config) (HOSTNAME g) = false ->
  Forall (fun c => exists server,
            In server (Servers config) /\ server <> HOSTNAME g /\
            c = mirror (remoteParams config) (PRODUCTIONPATH +++ "/")
                  (DEPLOYUSER +++ "@" +++ server +++ ":" +++ PRODUCTIONPATH +++ "/"))
         (issued (snd (executeDeploy g config (init w)))).
Proof.
  intros H. apply Forall_forall. intros c I.
  rewrite executeDeploy_runPlan in I. cbn [snd] in I.
  destruct (runPlan_issued config (mandated_sequence g config) [] (init w))
    as (new & Hn & Hi).
  unfold issued in I. rewrite Hn in I. apply Hi in I.
  apply in_flat_map in I. destruct I as (s & Is & Ic).
  unfold mandated_sequence, local_sequence in Is. rewrite H in Is.
  simpl in Is. unfold remote_sequence in Is. apply in_map_iff in Is.
  destruct Is as (server & <- & It). unfold remote_targets in It.
  apply filter_In in It. destruct It as [It N].
  destruct Ic as [<-|[]]. exists server. split; [exact It|]. split; [|reflexivity].
  apply negb_true_iff in N. now apply String.eqb_neq.
Qed.

Lemma no_failed_allSucceeded {A} (l : list (A * option error)) :
  filter failed l = [] -> allSucceeded l.
Proof.
  induction l as [|[a [e|]] l IH]; simpl; intros H.
  - constructor.
  - discriminate.
  - constructor; [reflexivity|now apply IH].
Qed.

Lemma executeDeploy_None g config w :
  (fst (executeDeploy g config (init w)) = None <->
   allSucceeded (steps (snd (executeDeploy g config (init w))))) /\
  (fst (executeDeploy g config (init w)) = None ->
   attempted (snd (executeDeploy g config (init w))) = mandated_sequence g config).
Proof.
  destruct (executeDeploy_cases g config (init w))
    as (entries & Hs & _ & [(_ & Hm & Hr)|[(_ & Hall & Hm & Hr)
                          |(_ & ok & s & err & He & Hok & Hr)]]);
    simpl in Hs; unfold attempted; rewrite Hs, Hr.
  - rewrite scanExitCodes_repeat. split.
    + split.
      * destruct (filter failed entries) eqn:E; [|discriminate].
        intros _. now apply no_failed_allSucceeded.
      * intros Hall. now rewrite (allSucceeded_no_failed _ Hall).
    + intros _. exact Hm.
  - split; [split; [intros _; exact Hall|reflexivity]|intros _; exact Hm].
  - split; [split|]; try discriminate.
    intros Hall. exfalso. rewrite He in Hall.
    apply (allSucceeded_not_in _ s err Hall). apply in_or_app. right. now left.
Qed.

(** X7.  [RunDeploy] ends with "Deploy completed successfully" exactly
    when the hostname and the inventory were obtained, validation passed
    and every step recorded by [executeDeploy] succeeded; the steps
    attempted are then the whole mandated sequence.  So under either
    policy a run with a failed step ends in [log.Fatal]. *)
Theorem RunDeploy_completed flags w :
  (fst (RunDeploy flags w) = Completed <->
   exists g config,
     resolve flags = inr (g, config) /\
     validateConfig g config = None /\
     allSucceeded (steps (snd (executeDeploy g config (init w))))) /\
  (fst (RunDeploy flags w) = Completed ->
   exists g config,
     resolve flags = inr (g, config) /\
     snd (RunDeploy flags w) = snd (executeDeploy g config (init w)) /\
     attempted (snd (RunDeploy flags w)) = mandated_sequence g config).
Proof.
  unfold RunDeploy. destruct (resolve flags) as [e|[g config]].
  { split; [split|]; try discriminate. intros (g & c & R & _). discriminate. }
  destruct (validateConfig g config) as [e|] eqn:V.
  { split; [split|]; try discriminate.
    intros (g' & c' & R & V' & _). inversion R; subst. congruence. }
  destruct (executeDeploy_None g config w) as (Hiff & Hatt).
  destruct (executeDeploy g config (init w)) as [[e|] st] eqn:E; cbn [fst snd] in *.
  - split; [split|]; try discriminate.
    intros (g' & c' & R & _ & Hall). inversion R; subst g' c'.
    rewrite E in Hall. cbn [snd] in Hall. apply Hiff in Hall. discriminate.
  - split.
    + split; [|reflexivity]. intros _. exists g, config.
      rewrite E. cbn [snd]. split; [reflexivity|]. split; [exact V|].
      now apply Hiff.
    + intros _. exists g, config. rewrite E. cbn [snd].
      split; [reflexivity|]. split; [reflexivity|]. now apply Hatt.
Qed.

Lemma runWrapped_quiet :
  (forall c w, snd (run c w) = None) ->
  forall cs st,
    fst (runWrapped cs st) = None /\
    cmds (snd (runWrapped cs st))
    = cmds st ++ map (fun c => (c, None)) (map fst cs) /\
    steps (snd (runWrapped cs st)) = steps st.
Proof.
  intros H. induction cs as [|[c wrap] cs IH]; intros st; cbn [runWrapped].
  - simpl. now rewrite app_nil_r.
  - unfold orReturn, bind, Run. specialize (H c (world st)).
    destruct (run c (world st)) as [w1 r]. simpl in H. subst r.
    destruct (IH {| world := w1; cmds := cmds st ++ [(c, None)];
                    steps := steps st |}) as (Hf & Hc & Hs).
    split; [exact Hf|]. split; [|exact Hs].
    rewrite Hc. simpl. now rewrite <- app_assoc.
Qed.

Lemma runPlan_quiet config :
  (forall c w, snd (run c w) = None) ->
  forall plan exitCodes st,
    fst (runPlan config plan exitCodes st) = inr exitCodes /\
    cmds (snd (runPlan config plan exitCodes st))
    = cmds st ++ map (fun c => (c, None)) (flat_map (stepCmds config) plan) /\
    steps (snd (runPlan config plan exitCodes st))
    = steps st ++ map (fun s => (s, None)) plan.
Proof.
  intros H. induction plan as [|s plan IH]; intros exitCodes st;
    cbn [runPlan flat_map].
  - simpl. now rewrite !app_nil_r.
  - unfold andThen, onError, bind, traced. rewrite runStep_runWrapped.
    destruct (runWrapped_quiet H (stepCmdsW config s) st) as (Hf & Hc & Hs).
    destruct (runWrapped (stepCmdsW config s) st) as [r st1].
    cbn [fst snd] in Hf, Hc, Hs. subst r. unfold ret. cbv beta iota.
    match goal with
    | |- context [runPlan config plan exitCodes ?st2] =>
        destruct (IH exitCodes st2) as (If & Ic & Is)
    end.
    cbn [cmds steps] in Ic, Is. split; [exact If|]. split.
    + rewrite Ic, Hc, map_app, <- app_assoc. reflexivity.
    + rewrite Is, Hs, <- app_assoc. reflexivity.
Qed.

(** X8.  When every external command succeeds, the run returns nil, every
    step of the mandated sequence is recorded as succeeded, and the
    commands run are exactly the commands of those steps, step after step
    in the order of the sequence. *)
Theorem nominal_run g config w :
  (forall c w', snd (run c w') = None) ->
  fst (executeDeploy g config (init w)) = None /\
  steps (snd (executeDeploy g config (init w)))
  = map (fun s => (s, None)) (mandated_sequence g config) /\
  cmds (snd (executeDeploy g config (init w)))
  = map (fun c => (c, None))
        (flat_map (stepCmds config) (mandated_sequence g config)).
Proof.
  intros H. rewrite executeDeploy_runPlan. cbn [fst snd].
  destruct (runPlan_quiet config H (mandated_sequence g config) [] (init w))
    as (Hf & Hc & Hs).
  rewrite Hf, Hc, Hs. repeat split.
Qed.

Lemma runStep_withForce b config s st :
  runStep (withForce b config) s st = runStep config s st.
Proof. destruct s; reflexivity. Qed.

Lemma runPlan_policies config plan : forall exitCodes st,
  (fst (runPlan (withForce false config) plan exitCodes st) = inr exitCodes /\
   fst (runPlan (withForce true config) plan exitCodes st) = inr exitCodes /\
   snd (runPlan (withForce false config) plan exitCodes st)
   = snd (runPlan (withForce true config) plan exitCodes st))
  \/ (exists err n moreSteps moreCmds,
        fst (runPlan (withForce false config) plan exitCodes st) = inl err /\
        fst (runPlan (withForce true config) plan exitCodes st)
        = inr (exitCodes ++ 1%Z :: repeat 1%Z n) /\
        steps (snd (runPlan (withForce true config) plan exitCodes st))
        = steps (snd (runPlan (withForce false config) plan exitCodes st))
          ++ moreSteps /\
        cmds (snd (runPlan (withForce true config) plan exitCodes st))
        = cmds (snd (runPlan (withForce false config) plan exitCodes st))
          ++ moreCmds).
Proof.
  induction plan as [|s plan IH]; intros exitCodes st; cbn [runPlan].
  - left. repeat split.
  - unfold andThen, onError, bind, traced. rewrite !runStep_withForce.
    destruct (runStep config s st) as [[e|] st1]; cbn [withForce Force negb].
    + right. cbn [ret fst snd].
      match goal with
      | |- context [runPlan (withForce true config) plan ?c ?st2] =>
          destruct (runPlan_issued (withForce true config) plan c st2)
            as (new & Hn & _);
          destruct (runPlan (withForce true config) plan c st2)
            as [r st'] eqn:E
      end.
      apply runPlan_spec in E. destruct E as (entries & Hs & _ & Hr).
      destruct r as [err|codes'].
      { destruct Hr as [Hr _]. discriminate. }
      destruct Hr as (_ & Hc & _).
      exists e, (length (filter failed entries)), entries, new.
      cbn [fst snd] in *. repeat split.
      * rewrite Hc, <- app_assoc. reflexivity.
      * exact Hs.
      * exact Hn.
    + apply IH.
Qed.

(** X12.  The two policies on the same request and the same world: what
    the fail-fast run does is the beginning of what the continue-on-error
    run does, step for step and command for command; one returns nil
    exactly when the other does, and then the two runs are the same. *)
Theorem fail_fast_is_a_prefix_of_continue g config w :
  initialPart (steps (snd (executeDeploy g (withForce false config) (init w))))
              (steps (snd (executeDeploy g (withForce true config) (init w)))) /\
  initialPart (cmds (snd (executeDeploy g (withForce false config) (init w))))
              (cmds (snd (executeDeploy g (withForce true config) (init w)))) /\
  (fst (executeDeploy g (withForce false config) (init w)) = None <->
   fst (executeDeploy g (withForce true config) (init w)) = None) /\
  (fst (executeDeploy g (withForce false config) (init w)) = None ->
   snd (executeDeploy g (withForce false config) (init w))
   = snd (executeDeploy g (withForce true config) (init w))).
Proof.
  rewrite !executeDeploy_runPlan. cbn [fst snd].
  change (mandated_sequence g (withForce false config))
    with (mandated_sequence g config).
  change (mandated_sequence g (withForce true config))
    with (mandated_sequence g config).
  destruct (runPlan_policies config (mandated_sequence g config) [] (init w))
    as [(Ha & Hb & Hst)|(err & n & ms & mc & Ha & Hb & Hs & Hc)].
  - rewrite Ha, Hb, Hst. repeat split; apply initialPart_refl.
  - rewrite Ha, Hb, Hs, Hc. simpl. repeat split; try discriminate.
    + now exists ms.
    + now exists mc.
Qed.

(** X11.  In every run of the local sync, each command issued is an
    rsync with arguments the mode ([--inplace] with [IgnoreTime], else
    [--update]), [-r], [--delete], [--exclude=.*], a source and a
    destination, and rsync reads exactly that source and that destination
    as its transfer endpoints.  The pair is the vendor directory of the
    staging root and of the production root (only with [UpgradeVendor]),
    or the directory of one declared extension under the staging
    extensions path and the directory of the same name under the
    production extensions, or likewise for one declared skin: a name is
    passed on as written, never split at a space and never read as an
    option. *)
Theorem local_sync_endpoints config st :
  exists results,
    cmds (snd (rsyncToLocalProduction config st)) = cmds st ++ results /\
    Forall (fun c =>
              Path c = "rsync" /\
              exists src dst,
                Args c = [if IgnoreTime config then "--inplace" else "--update";
                          "-r"; "--delete"; "--exclude=.*"; src; dst] /\
                rsyncEndpoints (Args c) = [src; dst] /\
                ( (UpgradeVendor config = true /\
                   src = STAGINGPATH +++ "/vendor/" /\
                   dst = PRODUCTIONPATH +++ "/vendor/")
                \/ (exists ext,
                      In ext (UpgradeExtensions config) /\
                      src = EXTENSIONPATH +++ "/" +++ ext +++ "/" /\
                      dst = PRODUCTIONPATH +++ "/extensions/" +++ ext +++ "/")
                \/ (exists skin,
                      In skin (UpgradeSkins config) /\
                      src = SKINPATH +++ "/" +++ skin +++ "/" /\
                      dst = PRODUCTIONPATH +++ "/skins/" +++ skin +++ "/") ))
           (map fst results).
Proof.
  rewrite rsyncToLocalProduction_runAll.
  destruct (runAll_spec (local_mirrors config) st)
    as (results & Hc & [rest Hi] & _).
  exists results. split; [exact Hc|].
  apply Forall_forall. intros c I.
  assert (I' : In c (local_mirrors config))
    by (rewrite Hi; apply in_or_app; now left).
  clear I. unfold local_mirrors in I'.
  apply in_app_or in I'. destruct I' as [I|I].
  - destruct (UpgradeVendor config) eqn:U; [|destruct I]. destruct I as [<-|[]].
    unfold localParams. split; [reflexivity|].
    destruct (IgnoreTime config); do 2 eexists;
      (split; [reflexivity|]); (split; [reflexivity|]); left; repeat split.
  - apply in_app_or in I. destruct I as [I|I];
      apply in_map_iff in I; destruct I as (x & <- & Ix);
      unfold extensionMirror, skinMirror, localParams;
      (split; [reflexivity|]);
      destruct (IgnoreTime config); do 2 eexists;
      (split; [reflexivity|]); (split; [reflexivity|]).
    + right. left. exists x. repeat split. exact Ix.
    + right. left. exists x. repeat split. exact Ix.
    + right. right. exists x. repeat split. exact Ix.
    + right. right. exists x. repeat split. exact Ix.
Qed.

Lemma traced_fst s m st : fst (traced s m st) = fst (m st).
Proof. unfold traced. destruct (m st); reflexivity. Qed.

Lemma runStep_failure config s st :
  exists results,
    cmds (snd (runStep config s st)) = cmds st ++ results /\
    forall e, fst (runStep config s st) = Some e ->
      exists c wrap perr,
        In (c, wrap) (stepCmdsW config s) /\
        In (c, Some perr) results /\ e = wrap perr.
Proof.
  rewrite runStep_runWrapped.
  destruct (runWrapped_spec (stepCmdsW config s) st)
    as (_ & results & Hc & [(Hn & _)
                          |(pre & c & wrap & post & ok & err & E & Hr & _ & _ & Hf)]);
    exists results; (split; [exact Hc|]); intros e He.
  - congruence.
  - exists c, wrap, err. rewrite E, Hr. repeat split.
    + apply in_or_app. right. now left.
    + apply in_or_app. right. now left.
    + congruence.
Qed.

Lemma runPlan_failures config plan : forall exitCodes st,
  exists entries new,
    steps (snd (runPlan config plan exitCodes st)) = steps st ++ entries /\
    cmds (snd (runPlan config plan exitCodes st)) = cmds st ++ new /\
    forall s e, In (s, Some e) entries ->
      exists c wrap perr,
        In (c, wrap) (stepCmdsW config s) /\
        In (c, Some perr) new /\ e = wrap perr.
Proof.
  induction plan as [|s plan IH]; intros exitCodes st; cbn [runPlan].
  - exists [], []. simpl. rewrite !app_nil_r. repeat split. intros s e [].
  - unfold andThen, bind.
    destruct (runStep_failure config s st) as (results & Hc & Hf).
    assert (S1 : steps (snd (onError config exitCodes
                               (traced s (runStep config s)) st))
                 = steps st ++ [(s, fst (runStep config s st))])
      by (rewrite onError_state, traced_steps, traced_fst, runStep_steps;
          reflexivity).
    assert (S2 : cmds (snd (onError config exitCodes
                              (traced s (runStep config s)) st))
                 = cmds st ++ results)
      by (rewrite onError_state, traced_cmds; exact Hc).
    assert (F : forall x e, In (x, Some e) [(s, fst (runStep config s st))] ->
                  exists c wrap perr,
                    In (c, wrap) (stepCmdsW config x) /\
                    In (c, Some perr) results /\ e = wrap perr).
    { intros x e [E|[]]. inversion E; subst x. apply Hf. congruence. }
    destruct (onError config exitCodes (traced s (runStep config s)) st)
      as [[e|codes] st1]; cbn [snd] in S1, S2.
    + exists [(s, fst (runStep config s st))], results. cbn [snd ret].
      repeat split; assumption.
    + destruct (IH codes st1) as (entries & new & Hs & Hn & Hall).
      exists ((s, fst (runStep config s st)) :: entries), (results ++ new).
      rewrite Hs, Hn, S1, S2, <- !app_assoc. repeat split.
      intros x e [E|I].
      * destruct (F x e (or_introl E)) as (c & wrap & perr & I1 & I2 & E').
        exists c, wrap, perr. repeat split; [exact I1| |exact E'].
        apply in_or_app. now left.
      * destruct (Hall x e I) as (c & wrap & perr & I1 & I2 & E').
        exists c, wrap, perr. repeat split; [exact I1| |exact E'].
        apply in_or_app. now right.
Qed.

(** X13.  A step is recorded as failed only when one of its own commands
    failed in that run, and the error recorded for the step is that
    command's error in the wrapping the step gives it (the message that
    names the step, or the bare error for the two syncs). *)
Theorem failed_step_has_failed_command g config w :
  forall s e,
    In (s, Some e) (steps (snd (executeDeploy g config (init w)))) ->
    exists c wrap perr,
      In (c, wrap) (stepCmdsW config s) /\
      In (c, Some perr) (cmds (snd (executeDeploy g config (init w)))) /\
      e = wrap perr.
Proof.
  rewrite executeDeploy_runPlan. cbn [snd].
  destruct (runPlan_failures config (mandated_sequence g config) [] (init w))
    as (entries & new & Hs & Hn & Hall).
  rewrite Hs, Hn. exact Hall.
Qed.

End Deploy.

(** ** Runs on concrete inputs *)

(** With [--upgrade-world], whatever the inventory turns out to be, the
    config handed to validation and to [executeDeploy] has no extensions
    and no skins: the block copies the package variables before the scans
    fill them.  The three switches are on. *)
Lemma resolve_upgrade_world os_Hostname os_ReadDir os_Stat flags g config :
  upgradeWorld flags = true ->
  resolve os_Hostname os_ReadDir os_Stat flags = inr (g, config) ->
  UpgradeExtensions config = [] /\ UpgradeSkins config = [] /\
  UpgradeVendor config = true /\ L10n config = true /\
  IgnoreTime config = true.
Proof.
  intros U R. unfold resolve in R.
  destruct os_Hostname as [e|hname]; [discriminate|].
  destruct (GetValidExtensions os_ReadDir os_Stat) as [e|exts]; [discriminate|].
  destruct (GetValidSkins os_ReadDir os_Stat) as [e|skins]; [discriminate|].
  inversion R; subst. unfold expandWorld.
  change (UpgradeWorld (parseFlags flags)) with (upgradeWorld flags).
  rewrite U. repeat split.
Qed.

(** C1.  [--upgrade-world --servers mw1] on host mw1, over a staging tree
    whose inventory is extension Foo and skin Vector: the config that
    validation and [executeDeploy] are given has dependency update,
    localization and timestamp bypass on, but an empty list of extensions
    and an empty list of skins, not the inventory; it passes validation,
    and the run updates and mirrors no extension and no skin. *)
Theorem C1_upgrade_world_before_inventory :
  exists g config,
    resolve demoHostname demoReadDir demoStat worldFlags = inr (g, config) /\
    VALIDEXTENSIONS g = ["Foo"] /\ VALIDSKINS g = ["Vector"] /\
    UpgradeExtensions config = [] /\ UpgradeSkins config = [] /\
    UpgradeVendor config = true /\ L10n config = true /\
    IgnoreTime config = true /\
    validateConfig g config = None /\
    attempted (snd (executeDeploy unit quiet g config (init tt)))
    = [DependencyUpdate; LocalSync; LocalizationRebuild ""] /\
    RunDeploy unit quiet demoHostname demoReadDir demoStat worldFlags tt
    = (Completed, snd (executeDeploy unit quiet g config (init tt))).
Proof.
  eexists. eexists. split; [vm_compute; reflexivity|].
  repeat split.
Qed.




Lemma C8_witness :
  Servers (parseFlags bogusFlags) = [] /\
  exists err,
    validateConfig demoGlobals (parseFlags bogusFlags) = Some err /\
    (err = errNoServers <->
     (forall x, In x (UpgradeExtensions (parseFlags bogusFlags)) ->
                contains (VALIDEXTENSIONS demoGlobals) x = true) /\
     (forall x, In x (UpgradeSkins (parseFlags bogusFlags)) ->
                contains (VALIDSKINS demoGlobals) x = true)) /\
    (forall pre ext post,
        UpgradeExtensions (parseFlags bogusFlags) = pre ++ ext :: post ->
        (forall x, In x pre -> contains (VALIDEXTENSIONS demoGlobals) x = true) ->
        contains (VALIDEXTENSIONS demoGlobals) ext = false ->
        err = errInvalidExtension ext) /\
    (forall pre skin post,
        (forall x, In x (UpgradeExtensions (parseFlags bogusFlags)) ->
                   contains (VALIDEXTENSIONS demoGlobals) x = true) ->
        UpgradeSkins (parseFlags bogusFlags) = pre ++ skin :: post ->
        (forall x, In x pre -> contains (VALIDSKINS demoGlobals) x = true) ->
        contains (VALIDSKINS demoGlobals) skin = false ->
        err = errInvalidSkin skin) /\
    (forall flags w,
        resolve demoHostname demoReadDir demoStat flags
        = inr (demoGlobals, parseFlags bogusFlags) ->
        RunDeploy unit quiet demoHostname demoReadDir demoStat flags w
        = (Fatal err, init w) /\
        (upgradeWorld flags = true -> err = errNoServers)).
Proof.
  split; [reflexivity|].
  apply (C8_no_servers unit quiet demoHostname demoReadDir demoStat
           demoGlobals (parseFlags bogusFlags)).
  reflexivity.
Defined.


(** No servers and an extension that is not in the inventory: the
    resolved server list is empty, yet the error of validation is the one
    for the extension, which is scanned first. *)
Lemma C8_counterexample :
  Servers (parseFlags bogusFlags) = [] /\
  RunDeploy unit quiet demoHostname demoReadDir demoStat bogusFlags tt
  = (Fatal (errInvalidExtension "Bogus"), init tt) /\
  errInvalidExtension "Bogus" <> errNoServers.
Proof.
  repeat split. vm_compute. discriminate.
Qed.


(** The scenario of the specification: Foo on mw1, every command
    succeeding: one extension update, one local sync mirroring exactly
    Foo, no remote sync, and success. *)
Example scenario_foo_on_local_host :
  executeDeploy unit quiet demoGlobals fooConfig (init tt)
  = (None,
     {| world := tt;
        cmds := [(command "git" ["-C"; "/prod/mediawiki-staging/extensions//Foo";
                                 "pull"; "--recurse-submodules"; "--quiet"], None);
                 (command "rsync" ["--update"; "-r"; "--delete"; "--exclude=.*";
                                   "/prod/mediawiki-staging/extensions//Foo/";
                                   "/prod/mediawiki/extensions/Foo/"], None)];
        steps := [(ExtensionUpdate "Foo", None); (LocalSync, None)] |}).
Proof. reflexivity. Qed.

(** [--upgrade-world] without servers ends in the no-servers error with
    nothing run. *)
Example upgrade_world_without_servers :
  RunDeploy unit quiet demoHostname demoReadDir demoStat worldNoServersFlags tt
  = (Fatal errNoServers, init tt).
Proof. reflexivity. Qed.

(** [--servers all] is the full roster before validation runs. *)
Example servers_all_is_the_roster :
  Servers (parseFlags allServersFlags) = ["mw1"; "mw2"; "mwtask1"].
Proof. reflexivity. Qed.

(** Under [Force], with the mirror of Foo failing: the local sync stops
    there (the second mirror of Foo and the mirror of Vector are not
    issued), the step is recorded as failed, and the run goes on with
    localization and the remote syncs. *)
Example force_does_not_resume_the_local_sync :
  map (fun c => last (Args c) "")
    (filter (programIs "rsync")
       (issued (snd (executeDeploy unit
                       (failing (lastArgIs "/prod/mediawiki/extensions/Foo/"))
                       demoGlobals (demoConfig true) (init tt)))))
  = ["/prod/mediawiki/vendor/"; "/prod/mediawiki/extensions/Foo/";
     "mediawikiuser@mw2:/prod/mediawiki/";
     "mediawikiuser@mwtask1:/prod/mediawiki/"] /\
  steps (snd (executeDeploy unit
                (failing (lastArgIs "/prod/mediawiki/extensions/Foo/"))
                demoGlobals (demoConfig true) (init tt)))
  = [(DependencyUpdate, None); (ExtensionUpdate "Foo", None);
     (ExtensionUpdate "Foo", None); (SkinUpdate "Vector", None);
     (LocalSync, Some exitStatus1); (LocalizationRebuild "en", None);
     (RemoteSync "mw2", None); (RemoteSync "mwtask1", None)].
Proof. split; reflexivity. Qed.

(** Names repeated on the command line stay repeated in the config. *)
Example parseFlags_keeps_repetitions :
  UpgradeExtensions
    (parseFlags {| upgradeExtensions := "Foo,Foo"; upgradeSkins := "";
                   upgradeVendor := false; upgradeWorld := false;
                   l10n := false; lang := ""; servers := "mw1";
                   ignoreTime := false; force := false |})
  = ["Foo"; "Foo"].
Proof. reflexivity. Qed.

Lemma validated_targets_witness :
  (forall ext, In ext (UpgradeExtensions (parseFlags fooFlags)) ->
     exists entries e,
       demoReadDir EXTENSIONPATH = inr entries /\ In e entries /\
       Name e = ext /\ isRepository demoStat EXTENSIONPATH e) /\
  (forall skin, In skin (UpgradeSkins (parseFlags fooFlags)) ->
     exists entries e,
       demoReadDir SKINPATH = inr entries /\ In e entries /\
       Name e = skin /\ isRepository demoStat SKINPATH e).
Proof.
  apply (validated_targets_are_repositories demoHostname demoReadDir demoStat
           fooFlags demoGlobals (parseFlags fooFlags)); reflexivity.
Defined.

Lemma nominal_run_witness :
  fst (executeDeploy unit quiet demoGlobals (demoConfig false) (init tt)) = None /\
  steps (snd (executeDeploy unit quiet demoGlobals (demoConfig false) (init tt)))
  = map (fun s => (s, None)) (mandated_sequence demoGlobals (demoConfig false)) /\
  cmds (snd (executeDeploy unit quiet demoGlobals (demoConfig false) (init tt)))
  = map (fun c => (c, None))
        (flat_map (stepCmds (demoConfig false))
                  (mandated_sequence demoGlobals (demoConfig false))).
Proof.
  apply (nominal_run unit quiet demoGlobals (demoConfig false) tt).
  intros c w'. reflexivity.
Defined.

Lemma host_out_of_scope_witness :
  Forall (fun c => exists server,
            In server (Servers remoteOnlyConfig) /\
            server <> HOSTNAME demoGlobals /\
            c = mirror (remoteParams remoteOnlyConfig) (PRODUCTIONPATH +++ "/")
                  (DEPLOYUSER +++ "@" +++ server +++ ":" +++ PRODUCTIONPATH +++ "/"))
         (issued (snd (executeDeploy unit (failing (lastArgIs mw2Destination))
                         demoGlobals remoteOnlyConfig (init tt)))).
Proof.
  apply (host_out_of_scope_only_remote_mirrors unit
           (failing (lastArgIs mw2Destination)) demoGlobals remoteOnlyConfig tt).
  reflexivity.
Defined.

Lemma failed_step_witness :
  exists c wrap perr,
    In (c, wrap) (stepCmdsW (demoConfig true) LocalSync) /\
    In (c, Some perr)
       (cmds (snd (executeDeploy unit (failing (programIs "rsync"))
                     demoGlobals (demoConfig true) (init tt)))) /\
    exitStatus1 = wrap perr.
Proof.
  apply (failed_step_has_failed_command unit (failing (programIs "rsync"))
           demoGlobals (demoConfig true) tt LocalSync exitStatus1).
  vm_compute. tauto.
Defined.
